(** * Storyboard timeline, frame mapping, playback and capture

    A shallow embedding of [src/app/page.tsx] (the [HomePage] component).

    JavaScript numbers are modelled exactly: the per-slide [duration] and
    every time stamp are rationals ([Q]); millisecond durations, which the
    code produces with [Math.round], are integers ([Z]).  [NaN] and the
    infinities are outside the model. *)

From Stdlib Require Import ZArith QArith Qround Qminmax Ascii String List Bool Arith Lia Lqa.
From Stdlib Require Import DecimalString Permutation.
Import ListNotations.

Local Open Scope Z_scope.

(** ** Numbers *)

(** [Math.round]: the nearest integer, halves rounded towards +infinity. *)
Definition Math_round (x : Q) : Z := Qfloor (x + (1 # 2))%Q.

(** ** Data model (page.tsx, lines 5-16) *)

Record Slide : Type := mkSlide {
  id : string;
  title : string;
  body : string;
  background : string;
  duration : Q
}.

Record TimelineSegment : Type := mkSegment {
  seg_id : string;
  durationMs : Z
}.

Record Timeline : Type := mkTimeline {
  segments : list TimelineSegment;
  totalDurationMs : Z
}.

(** ** Timeline builder (page.tsx, lines 44-54) *)

(** The callback of [slides.map]. *)
Definition toSegment (slide : Slide) : TimelineSegment :=
  {| seg_id := id slide;
     durationMs := Z.max 1 (Math_round (duration slide * 1000)%Q) |}.

(** [segments.reduce((sum, segment) => sum + segment.durationMs, 0)]. *)
Definition sumDurations (segs : list TimelineSegment) : Z :=
  fold_left (fun sum segment => sum + durationMs segment) segs 0.

Definition timeline (slides : list Slide) : Timeline :=
  let segments := map toSegment slides in
  let totalDurationMs := sumDurations segments in
  {| segments := segments;
     totalDurationMs := Z.max totalDurationMs 1 |}.

(** ** Frame mapper (the pure part of [drawFrame], lines 105-121) *)

(** State of the [for] loop of [drawFrame]: the three [let] variables. *)
Record Scan : Type := mkScan {
  remaining : Q;
  activeIndex : nat;
  currentSegment : option TimelineSegment
}.

(** The loop, entered at index [i] with [rest] the segments from [i] on and
    [len] the value of [timeline.segments.length].  Running off the end of
    the list leaves the variables as they were. *)
Fixpoint scanFrom (len : nat) (rest : list TimelineSegment) (i : nat)
  (st : Scan) : Scan :=
  match rest with
  | [] => st
  | segment :: rest' =>
      if Qle_bool (remaining st) (inject_Z (durationMs segment))
         || Nat.eqb i (len - 1)
      then {| remaining := remaining st;
              activeIndex := i;
              currentSegment := Some segment |}
      else scanFrom len rest' (S i)
             {| remaining := (remaining st - inject_Z (durationMs segment))%Q;
                activeIndex := activeIndex st;
                currentSegment := currentSegment st |}
  end.

(** [Math.max(0, Math.min(elapsedMs, timeline.totalDurationMs - 1))]. *)
Definition clampElapsed (tl : Timeline) (elapsedMs : Q) : Q :=
  Qmax 0 (Qmin elapsedMs (inject_Z (totalDurationMs tl - 1))).

Definition scanTimeline (tl : Timeline) (elapsedMs : Q) : Scan :=
  scanFrom (length (segments tl)) (segments tl) 0%nat
    {| remaining := clampElapsed tl elapsedMs;
       activeIndex := 0%nat;
       currentSegment := nth_error (segments tl) 0 |}.

(** [currentSegment.durationMs === 0 ? 0 : remaining / currentSegment.durationMs];
    reading [durationMs] of [undefined] throws, which is [None] here. *)
Definition progressOf (s : Scan) : option Q :=
  match currentSegment s with
  | None => None
  | Some seg =>
      Some (if Z.eqb (durationMs seg) 0 then 0%Q
            else (remaining s / inject_Z (durationMs seg))%Q)
  end.

(** The frame chosen for [elapsedMs]: the slide index and the local progress. *)
Definition mapFrame (tl : Timeline) (elapsedMs : Q) : option (nat * Q) :=
  let s := scanTimeline tl elapsedMs in
  match progressOf s with
  | None => None
  | Some p => Some (activeIndex s, p)
  end.

(** The sum of a list of integers, for the statements below. *)
Definition sumZ (l : list Z) : Z := fold_right Z.add 0 l.

(** Sum of the durations of the first [k] segments: the time consumed
    before segment [k] starts. *)
Definition consumed (segs : list TimelineSegment) (k : nat) : Z :=
  sumDurations (firstn k segs).

(** The time left of [clamped] when the walk reaches segment [k]. *)
Definition remainingAt (segs : list TimelineSegment) (clamped : Q) (k : nat) : Q :=
  (clamped - inject_Z (consumed segs k))%Q.

(** Segment [k] exists and its duration is at least the time left there. *)
Definition fitsAt (segs : list TimelineSegment) (clamped : Q) (k : nat) : Prop :=
  exists s, nth_error segs k = Some s /\
            (remainingAt segs clamped k <= inject_Z (durationMs s))%Q.

(** A slide with the given id and duration in seconds, for examples. *)
Definition slideOf (i : string) (seconds : Q) : Slide :=
  {| id := i; title := "Slide"; body := "Describe your story here.";
     background := "#5b21b6"; duration := seconds |}.

(** ** Browser objects and the component's state *)

Inductive TrackState : Type := Live | Ended.

(** A [MediaStream] is the list of the states of its tracks. *)
Definition MediaStream : Type := list TrackState.

Record Blob : Type := mkBlob {
  blob_size : nat;
  blob_type : string
}.

Inductive RecordingState : Type := Inactive | Recording.

(** A [MediaRecorder] object: its stream, the format descriptor its
    constructor received and its state, together with what its two handlers
    captured: [rec_mimeType] is the [mimeType] of [renderVideo],
    [rec_closureUrl] the [recordedUrl] of the render in which [renderVideo]
    was created. *)
Record MediaRecorder : Type := mkRecorder {
  rec_stream : nat;
  rec_options : option string;
  rec_mimeType : option string;
  rec_state : RecordingState;
  rec_closureUrl : option nat
}.

(** The canvas element: whether [getContext("2d")] gives a context, and how
    many tracks a stream captured from it carries. *)
Record Canvas : Type := mkCanvas {
  context2d : bool;
  captureTracks : nat
}.

(** What a [tick] closure does when the timeline is over: the tick of
    [runTimeline] loops or calls [onComplete] (a callback, named by a
    number); the tick of [renderVideo] stops its recorder. *)
Inductive TickKind : Type :=
| PlaybackTick (loop : bool) (onComplete : option nat)
| CaptureTick (recorder : nat).

(** A [tick] closure: the [slides] (hence [timeline] and [drawFrame]) of the
    render that created it, and its variable [start]. *)
Record Tick : Type := mkTick {
  t_slides : list Slide;
  t_kind : TickKind;
  t_start : Q
}.

(** What the component does to the outside: calls of [drawSlide] (with the
    slide, its index and the progress) and calls of [onComplete]. *)
Inductive Event : Type :=
| DrawSlide (slide : option Slide) (index : nat) (progress : Q)
| OnComplete (callback : nat).

Record World : Type := mkWorld {
  (* React state *)
  slides : list Slide;
  isPlaying : bool;
  isRecording : bool;
  statusMessage : option string;
  recordedUrl : option nat;
  (* refs *)
  canvasRef : option Canvas;
  animationRef : option nat;
  playingRef : bool;
  recorderRef : option nat;
  recordedChunksRef : list Blob;
  (* browser *)
  pending : list (nat * Tick);
  nextHandle : nat;
  streams : list MediaStream;
  recorders : list MediaRecorder;
  objectURLs : list (nat * Blob);
  nextUrl : nat;
  trace : list Event
}.

Definition set_slides v w := mkWorld v (isPlaying w) (isRecording w) (statusMessage w) (recordedUrl w) (canvasRef w) (animationRef w) (playingRef w) (recorderRef w) (recordedChunksRef w) (pending w) (nextHandle w) (streams w) (recorders w) (objectURLs w) (nextUrl w) (trace w).
Definition setIsPlaying v w := mkWorld (slides w) v (isRecording w) (statusMessage w) (recordedUrl w) (canvasRef w) (animationRef w) (playingRef w) (recorderRef w) (recordedChunksRef w) (pending w) (nextHandle w) (streams w) (recorders w) (objectURLs w) (nextUrl w) (trace w).
Definition setIsRecording v w := mkWorld (slides w) (isPlaying w) v (statusMessage w) (recordedUrl w) (canvasRef w) (animationRef w) (playingRef w) (recorderRef w) (recordedChunksRef w) (pending w) (nextHandle w) (streams w) (recorders w) (objectURLs w) (nextUrl w) (trace w).
Definition setStatusMessage v w := mkWorld (slides w) (isPlaying w) (isRecording w) v (recordedUrl w) (canvasRef w) (animationRef w) (playingRef w) (recorderRef w) (recordedChunksRef w) (pending w) (nextHandle w) (streams w) (recorders w) (objectURLs w) (nextUrl w) (trace w).
Definition setRecordedUrl v w := mkWorld (slides w) (isPlaying w) (isRecording w) (statusMessage w) v (canvasRef w) (animationRef w) (playingRef w) (recorderRef w) (recordedChunksRef w) (pending w) (nextHandle w) (streams w) (recorders w) (objectURLs w) (nextUrl w) (trace w).
Definition set_animationRef v w := mkWorld (slides w) (isPlaying w) (isRecording w) (statusMessage w) (recordedUrl w) (canvasRef w) v (playingRef w) (recorderRef w) (recordedChunksRef w) (pending w) (nextHandle w) (streams w) (recorders w) (objectURLs w) (nextUrl w) (trace w).
Definition set_playingRef v w := mkWorld (slides w) (isPlaying w) (isRecording w) (statusMessage w) (recordedUrl w) (canvasRef w) (animationRef w) v (recorderRef w) (recordedChunksRef w) (pending w) (nextHandle w) (streams w) (recorders w) (objectURLs w) (nextUrl w) (trace w).
Definition set_recorderRef v w := mkWorld (slides w) (isPlaying w) (isRecording w) (statusMessage w) (recordedUrl w) (canvasRef w) (animationRef w) (playingRef w) v (recordedChunksRef w) (pending w) (nextHandle w) (streams w) (recorders w) (objectURLs w) (nextUrl w) (trace w).
Definition set_recordedChunksRef v w := mkWorld (slides w) (isPlaying w) (isRecording w) (statusMessage w) (recordedUrl w) (canvasRef w) (animationRef w) (playingRef w) (recorderRef w) v (pending w) (nextHandle w) (streams w) (recorders w) (objectURLs w) (nextUrl w) (trace w).
Definition set_pending v w := mkWorld (slides w) (isPlaying w) (isRecording w) (statusMessage w) (recordedUrl w) (canvasRef w) (animationRef w) (playingRef w) (recorderRef w) (recordedChunksRef w) v (nextHandle w) (streams w) (recorders w) (objectURLs w) (nextUrl w) (trace w).
Definition set_nextHandle v w := mkWorld (slides w) (isPlaying w) (isRecording w) (statusMessage w) (recordedUrl w) (canvasRef w) (animationRef w) (playingRef w) (recorderRef w) (recordedChunksRef w) (pending w) v (streams w) (recorders w) (objectURLs w) (nextUrl w) (trace w).
Definition set_streams v w := mkWorld (slides w) (isPlaying w) (isRecording w) (statusMessage w) (recordedUrl w) (canvasRef w) (animationRef w) (playingRef w) (recorderRef w) (recordedChunksRef w) (pending w) (nextHandle w) v (recorders w) (objectURLs w) (nextUrl w) (trace w).
Definition set_recorders v w := mkWorld (slides w) (isPlaying w) (isRecording w) (statusMessage w) (recordedUrl w) (canvasRef w) (animationRef w) (playingRef w) (recorderRef w) (recordedChunksRef w) (pending w) (nextHandle w) (streams w) v (objectURLs w) (nextUrl w) (trace w).
Definition set_objectURLs v w := mkWorld (slides w) (isPlaying w) (isRecording w) (statusMessage w) (recordedUrl w) (canvasRef w) (animationRef w) (playingRef w) (recorderRef w) (recordedChunksRef w) (pending w) (nextHandle w) (streams w) (recorders w) v (nextUrl w) (trace w).
Definition set_nextUrl v w := mkWorld (slides w) (isPlaying w) (isRecording w) (statusMessage w) (recordedUrl w) (canvasRef w) (animationRef w) (playingRef w) (recorderRef w) (recordedChunksRef w) (pending w) (nextHandle w) (streams w) (recorders w) (objectURLs w) v (trace w).
Definition set_trace v w := mkWorld (slides w) (isPlaying w) (isRecording w) (statusMessage w) (recordedUrl w) (canvasRef w) (animationRef w) (playingRef w) (recorderRef w) (recordedChunksRef w) (pending w) (nextHandle w) (streams w) (recorders w) (objectURLs w) (nextUrl w) v.

(** ** Operations: a state monad with exceptions *)

Inductive Outcome (A : Type) : Type :=
| Returned (a : A) (w : World)
| Threw (w : World).
Arguments Returned {A} a w.
Arguments Threw {A} w.

Definition Op (A : Type) : Type := World -> Outcome A.

Definition ret {A : Type} (a : A) : Op A := fun w => Returned a w.

Definition bind {A B : Type} (m : Op A) (k : A -> Op B) : Op B :=
  fun w => match m w with
           | Returned a w' => k a w'
           | Threw w' => Threw w'
           end.

Definition throw {A : Type} : Op A := fun w => Threw w.

(** [try { body } catch { handler }]. *)
Definition tryCatch {A : Type} (body handler : Op A) : Op A :=
  fun w => match body w with
           | Returned a w' => Returned a w'
           | Threw w' => handler w'
           end.

Definition get : Op World := fun w => Returned w w.
Definition modify (f : World -> World) : Op unit := fun w => Returned tt (f w).

(** The world an operation leaves behind, whether it returned or threw. *)
Definition exec {A : Type} (m : Op A) (w : World) : World :=
  match m w with
  | Returned _ w' => w'
  | Threw w' => w'
  end.

Notation "x <- m ;; k" := (bind m (fun x => k))
  (at level 61, m at next level, right associativity).
Notation "m ;; k" := (bind m (fun _ => k))
  (at level 61, right associativity).

(** ** Animation frames *)

(** [if (animationRef.current)]: [undefined] and [0] are falsy. *)
Definition truthyHandle (h : option nat) : option nat :=
  match h with
  | Some (S n) => Some (S n)
  | _ => None
  end.

Definition cancelAnimationFrame (h : nat) : Op unit :=
  modify (fun w =>
    set_pending (filter (fun e => negb (Nat.eqb (fst e) h)) (pending w)) w).

Definition requestAnimationFrame (t : Tick) : Op nat :=
  fun w =>
    Returned (nextHandle w)
      (set_nextHandle (S (nextHandle w))
         (set_pending (pending w ++ [(nextHandle w, t)]) w)).

(** [if (animationRef.current) { cancelAnimationFrame(animationRef.current); }] *)
Definition cancelCurrentFrame : Op unit :=
  w <- get ;;
  match truthyHandle (animationRef w) with
  | Some h => cancelAnimationFrame h
  | None => ret tt
  end.

Definition emit (e : Event) : Op unit :=
  modify (fun w => set_trace (trace w ++ [e]) w).

(** ** drawFrame (page.tsx, lines 94-125)

    [slides] is the slide list of the render that created the callback; the
    [timeline] it uses is the memo of the same render. *)
Definition drawFrame (slides : list Slide) (elapsedMs : Q) : Op unit :=
  w <- get ;;
  match canvasRef w with
  | None => ret tt
  | Some canvas =>
      if negb (context2d canvas) || Nat.eqb (length slides) 0 then ret tt
      else
        match mapFrame (timeline slides) elapsedMs with
        | None => throw
        | Some (index, progress) =>
            emit (DrawSlide (nth_error slides index) index progress)
        end
  end.

(** ** Playback (page.tsx, lines 127-181) *)

Definition stopPlayback : Op unit :=
  modify (set_playingRef false) ;;
  modify (setIsPlaying false) ;;
  cancelCurrentFrame.

(** The [tick] closure of [runTimeline] (lines 148-167), for a closure with
    the given [loop] and [onComplete]. *)
Definition tick (c : Tick) (loop : bool) (onComplete : option nat) (now : Q)
  : Op unit :=
  w <- get ;;
  if negb (playingRef w) then ret tt
  else
    let total := totalDurationMs (timeline (t_slides c)) in
    let elapsed := (now - t_start c)%Q in
    if Qle_bool (inject_Z total) elapsed then
      drawFrame (t_slides c) (inject_Z (total - 1)) ;;
      if loop then
        h <- requestAnimationFrame
               {| t_slides := t_slides c; t_kind := t_kind c; t_start := now |} ;;
        modify (set_animationRef (Some h))
      else
        modify (set_playingRef false) ;;
        modify (setIsPlaying false) ;;
        match onComplete with
        | Some callback => emit (OnComplete callback)
        | None => ret tt
        end
    else
      drawFrame (t_slides c) elapsed ;;
      h <- requestAnimationFrame c ;;
      modify (set_animationRef (Some h)).

(** [runTimeline(loop, onComplete)]; [now] is what [performance.now()]
    returns. *)
Definition runTimeline (loop : bool) (onComplete : option nat) (now : Q)
  : Op unit :=
  w <- get ;;
  if Nat.eqb (length (slides w)) 0 then ret tt
  else
    cancelCurrentFrame ;;
    let c := {| t_slides := slides w;
                t_kind := PlaybackTick loop onComplete;
                t_start := now |} in
    modify (set_playingRef true) ;;
    modify (setIsPlaying true) ;;
    drawFrame (slides w) 0 ;;
    h <- requestAnimationFrame c ;;
    modify (set_animationRef (Some h)).

Definition playPreview (now : Q) : Op unit := runTimeline true None now.
Definition stopPreview : Op unit := stopPlayback.

(** ** Streams and recorders *)

Fixpoint stopAt (sid : nat) (ss : list MediaStream) : list MediaStream :=
  match ss, sid with
  | [], _ => []
  | s :: ss', O => map (fun _ => Ended) s :: ss'
  | s :: ss', S n => s :: stopAt n ss'
  end.

(** [stream.getTracks().forEach((track) => track.stop())]. *)
Definition stopTracks (sid : nat) : Op unit :=
  modify (fun w => set_streams (stopAt sid (streams w)) w).

(** [canvas.captureStream(30)]: a new stream of live tracks. *)
Definition captureStream (canvas : Canvas) : Op nat :=
  fun w =>
    Returned (length (streams w))
      (set_streams (streams w ++ [repeat Live (captureTracks canvas)]) w).

Fixpoint setRecState (r : nat) (s : RecordingState) (rs : list MediaRecorder)
  : list MediaRecorder :=
  match rs, r with
  | [], _ => []
  | x :: rs', O =>
      {| rec_stream := rec_stream x; rec_options := rec_options x;
         rec_mimeType := rec_mimeType x;
         rec_state := s; rec_closureUrl := rec_closureUrl x |} :: rs'
  | x :: rs', S n => x :: setRecState n s rs'
  end.

(** [recorder.stop()]: throws on a recorder that is not recording. *)
Definition recorderStop (r : nat) : Op unit :=
  w <- get ;;
  match nth_error (recorders w) r with
  | Some x =>
      match rec_state x with
      | Recording =>
          modify (fun w => set_recorders (setRecState r Inactive (recorders w)) w)
      | Inactive => throw
      end
  | None => throw
  end.

(** The global [MediaRecorder], as the host provides it: the support probe
    ([None] when the probe throws), whether the constructor accepts a format
    descriptor (or none), and whether [start] succeeds. *)
Record MediaRecorderClass : Type := mkClass {
  isTypeSupported : string -> option bool;
  constructs : option string -> bool;
  starts : bool
}.

Section Capture.

(** [None] when [typeof MediaRecorder === "undefined"]. *)
Variable MediaRecorderGlobal : option MediaRecorderClass.

Definition candidates : list string :=
  ["video/webm;codecs=vp9"; "video/webm;codecs=vp8"; "video/webm"]%string.

(** The callback of [candidates.find]: [try]/[catch] around the probe. *)
Definition probe (api : MediaRecorderClass) (candidate : string) : bool :=
  match isTypeSupported api candidate with
  | Some supported => supported
  | None => false
  end.

(** [selectMimeType] (lines 238-250). *)
Definition selectMimeType : option string :=
  match MediaRecorderGlobal with
  | None => None
  | Some api => find (probe api) candidates
  end.

(** [new MediaRecorder(stream, options)]; with the global missing the
    expression throws a ReferenceError. *)
Definition newMediaRecorder (stream : nat) (options : option string)
  (mimeType : option string) : Op nat :=
  w <- get ;;
  match MediaRecorderGlobal with
  | None => throw
  | Some api =>
      if constructs api options then
        modify (fun w =>
          set_recorders
            (recorders w ++
               [{| rec_stream := stream; rec_options := options;
                   rec_mimeType := mimeType;
                   rec_state := Inactive;
                   rec_closureUrl := recordedUrl w |}]) w) ;;
        ret (length (recorders w))
      else throw
  end.

(** [recorder.start(200)]. *)
Definition recorderStart (r : nat) : Op unit :=
  match MediaRecorderGlobal with
  | None => throw
  | Some api =>
      if starts api then
        modify (fun w => set_recorders (setRecState r Recording (recorders w)) w)
      else throw
  end.

(** The format descriptor of [mimeType ? new MediaRecorder(stream, { mimeType })
    : new MediaRecorder(stream)]: the empty string is falsy. *)
Definition recorderOptions (mimeType : option string) : option string :=
  match mimeType with
  | Some EmptyString => None
  | Some s => Some s
  | None => None
  end.

(** The [tick] closure of [renderVideo] (lines 296-310). *)
Definition captureTick (c : Tick) (recorder : nat) (now : Q) : Op unit :=
  w <- get ;;
  if negb (playingRef w) then ret tt
  else
    let total := totalDurationMs (timeline (t_slides c)) in
    let elapsed := (now - t_start c)%Q in
    if Qle_bool (inject_Z total) elapsed then
      drawFrame (t_slides c) (inject_Z (total - 1)) ;;
      modify (set_playingRef false) ;;
      modify (setIsPlaying false) ;;
      recorderStop recorder
    else
      drawFrame (t_slides c) elapsed ;;
      h <- requestAnimationFrame c ;;
      modify (set_animationRef (Some h)).

(** [renderVideo] (lines 252-322); [now] is what [performance.now()]
    returns. *)
Definition renderVideo (now : Q) : Op unit :=
  w <- get ;;
  if Nat.eqb (length (slides w)) 0 || isRecording w then ret tt
  else
    match canvasRef w with
    | None => modify (setStatusMessage (Some "Canvas preview is not ready."%string))
    | Some canvas =>
        stream <- captureStream canvas ;;
        cancelCurrentFrame ;;
        let mimeType := selectMimeType in
        tryCatch
          (modify (set_recordedChunksRef []) ;;
           recorder <- newMediaRecorder stream (recorderOptions mimeType) mimeType ;;
           modify (set_recorderRef (Some recorder)) ;;
           modify (setIsRecording true) ;;
           modify (setStatusMessage (Some "Rendering video..."%string)) ;;
           recorderStart recorder ;;
           modify (set_playingRef true) ;;
           let c := {| t_slides := slides w;
                       t_kind := CaptureTick recorder;
                       t_start := now |} in
           modify (setIsPlaying true) ;;
           drawFrame (slides w) 0 ;;
           h <- requestAnimationFrame c ;;
           modify (set_animationRef (Some h)))
          (modify (setStatusMessage
                     (Some "MediaRecorder is not supported in this browser."%string)) ;;
           stopTracks stream ;;
           modify (set_playingRef false) ;;
           modify (setIsPlaying false) ;;
           modify (setIsRecording false))
    end.

(** The callback the browser runs for a pending animation frame. *)
Definition runTick (c : Tick) (now : Q) : Op unit :=
  match t_kind c with
  | PlaybackTick loop onComplete => tick c loop onComplete now
  | CaptureTick recorder => captureTick c recorder now
  end.

(** A sequence of steps, each a closure and the time it runs at. *)
Fixpoint runTicks (steps : list (Tick * Q)) : Op unit :=
  match steps with
  | [] => ret tt
  | (c, now) :: steps' => runTick c now ;; runTicks steps'
  end.

(** Whether [new MediaRecorder(stream, options)] throws. *)
Definition constructorThrows (options : option string) : bool :=
  match MediaRecorderGlobal with
  | None => true
  | Some api => negb (constructs api options)
  end.

End Capture.

(** The browser fires the pending frame [h] at time [now]: the callback
    leaves the queue and runs. *)
Definition fireFrame (h : nat) (now : Q) : Op unit :=
  w <- get ;;
  match find (fun e => Nat.eqb (fst e) h) (pending w) with
  | None => ret tt
  | Some (_, c) => cancelAnimationFrame h ;; runTick c now
  end.

(** [recorder.ondataavailable] (lines 272-276). *)
Definition ondataavailable (data : option Blob) : Op unit :=
  match data with
  | Some blob =>
      if Nat.ltb 0 (blob_size blob) then
        modify (fun w => set_recordedChunksRef (recordedChunksRef w ++ [blob]) w)
      else ret tt
  | None => ret tt
  end.

(** [recorder.onstop] (lines 278-288). *)
Definition onstop (r : nat) : Op unit :=
  w <- get ;;
  match nth_error (recorders w) r with
  | None => throw
  | Some x =>
      let blob :=
        {| blob_size := fold_left (fun n b => (n + blob_size b)%nat)
                          (recordedChunksRef w) 0%nat;
           blob_type := match rec_mimeType x with
                        | Some m => m
                        | None => "video/webm"%string
                        end |} in
      match rec_closureUrl x with
      | Some old =>
          modify (fun w =>
            set_objectURLs
              (filter (fun e => negb (Nat.eqb (fst e) old)) (objectURLs w)) w)
      | None => ret tt
      end ;;
      modify (fun w =>
        set_nextUrl (S (nextUrl w))
          (set_objectURLs (objectURLs w ++ [(nextUrl w, blob)]) w)) ;;
      modify (setRecordedUrl (Some (nextUrl w))) ;;
      modify (setIsRecording false) ;;
      modify (setStatusMessage
                (Some "Video rendering complete. Ready for download."%string)) ;;
      stopTracks (rec_stream x)
  end.

(** ** Slide editing (page.tsx, lines 21-29 and 200-224) *)

(** The decimal digits of a number, as a template literal prints it. *)
Definition showNat (n : nat) : string := NilZero.string_of_uint (Nat.to_uint n).

(** [createSlide(index)].  [uuid] is the result of [crypto.randomUUID()]
    where the host has it, and [None] where the test
    [typeof crypto !== "undefined" && "randomUUID" in crypto] fails. *)
Definition createSlide (uuid : option string) (index : nat) : Slide :=
  {| id := match uuid with
           | Some u => u
           | None => ("slide-" ++ showNat index)%string
           end;
     title := ("Slide " ++ showNat (index + 1))%string;
     body := "Describe your story here.";
     background :=
       nth (index mod 4) ["#5b21b6"; "#1d4ed8"; "#059669"; "#dc2626"]%string
         ""%string;
     duration := 4 |}.

Definition INITIAL_SLIDES (uuid0 uuid1 : option string) : list Slide :=
  [createSlide uuid0 0; createSlide uuid1 1].

(** [Partial<Slide>]. *)
Record SlidePatch : Type := mkPatch {
  p_id : option string;
  p_title : option string;
  p_body : option string;
  p_background : option string;
  p_duration : option Q
}.

Definition orElse {A : Type} (o : option A) (d : A) : A :=
  match o with
  | Some a => a
  | None => d
  end.

(** [{ ...slide, ...patch }]. *)
Definition applyPatch (slide : Slide) (patch : SlidePatch) : Slide :=
  {| id := orElse (p_id patch) (id slide);
     title := orElse (p_title patch) (title slide);
     body := orElse (p_body patch) (body slide);
     background := orElse (p_background patch) (background slide);
     duration := orElse (p_duration patch) (duration slide) |}.

Definition addSlide (uuid : option string) (prev : list Slide) : list Slide :=
  prev ++ [createSlide uuid (length prev)].

Definition updateSlide (i : string) (patch : SlidePatch) (prev : list Slide)
  : list Slide :=
  map (fun slide => if String.eqb (id slide) i then applyPatch slide patch
                    else slide) prev.

Definition removeSlide (i : string) (prev : list Slide) : list Slide :=
  if Nat.leb (length prev) 1 then prev
  else filter (fun slide => negb (String.eqb (id slide) i)) prev.

(** [prev.findIndex(p)], with [None] for [-1]. *)
Fixpoint findIndex {A : Type} (p : A -> bool) (l : list A) : option nat :=
  match l with
  | [] => None
  | x :: l' => if p x then Some 0%nat
               else option_map S (findIndex p l')
  end.

(** [moveSlide(id, direction)], with [direction] -1 or 1. *)
Definition moveSlide (i : string) (direction : Z) (prev : list Slide)
  : list Slide :=
  match findIndex (fun slide => String.eqb (id slide) i) prev with
  | None => prev
  | Some index =>
      let target := Z.of_nat index + direction in
      if Z.ltb target 0 || Z.geb target (Z.of_nat (length prev)) then prev
      else
        match nth_error prev index with
        | None => prev
        | Some removed =>
            let updated := firstn index prev ++ skipn (S index) prev in
            firstn (Z.to_nat target) updated ++ removed
              :: skipn (Z.to_nat target) updated
        end
  end.

(** The component when it mounts: the initial values of its state and refs,
    with the given canvas and slides, and a browser with nothing pending. *)
Definition initialWorld (canvas : option Canvas) (initial : list Slide) : World :=
  {| slides := initial; isPlaying := false; isRecording := false;
     statusMessage := None; recordedUrl := None;
     canvasRef := canvas; animationRef := None; playingRef := false;
     recorderRef := None; recordedChunksRef := [];
     pending := []; nextHandle := 1; streams := []; recorders := [];
     objectURLs := []; nextUrl := 0; trace := [] |}.

Definition readyCanvas : Canvas := {| context2d := true; captureTracks := 1 |}.

(** A host whose encoder takes VP8 and plain WebM, and one whose
    [MediaRecorder] constructor rejects every stream. *)
Definition vp8Host : MediaRecorderClass :=
  {| isTypeSupported :=
       fun c => Some (negb (String.eqb c "video/webm;codecs=vp9"));
     constructs := fun _ => true;
     starts := true |}.

Definition rejectingHost : MediaRecorderClass :=
  {| isTypeSupported := fun _ => Some false;
     constructs := fun _ => false;
     starts := true |}.

(** One click in the editor. *)
Inductive Edit : Type :=
| AddSlide (uuid : option string)
| UpdateSlide (i : string) (patch : SlidePatch)
| RemoveSlide (i : string)
| MoveSlide (i : string) (up : bool).

Definition applyEdit (prev : list Slide) (e : Edit) : list Slide :=
  match e with
  | AddSlide uuid => addSlide uuid prev
  | UpdateSlide i patch => updateSlide i patch prev
  | RemoveSlide i => removeSlide i prev
  | MoveSlide i up => moveSlide i (if up then (-1) else 1) prev
  end.

Definition applyEdits (edits : list Edit) (start : list Slide) : list Slide :=
  fold_left applyEdit edits start.

(** Slide lists the editor reaches from [start] when every added slide
    gets a fresh id from [crypto.randomUUID()] and no patch changes an id
    (the editor's inputs patch title, body, duration and background). *)
Inductive ReachableUnique (start : list Slide) : list Slide -> Prop :=
| reach_start : ReachableUnique start start
| reach_add prev u :
    ReachableUnique start prev -> ~ In u (map id prev) ->
    ReachableUnique start (addSlide (Some u) prev)
| reach_update prev i patch :
    ReachableUnique start prev -> p_id patch = None ->
    ReachableUnique start (updateSlide i patch prev)
| reach_remove prev i :
    ReachableUnique start prev ->
    ReachableUnique start (removeSlide i prev)
| reach_move prev i (up : bool) :
    ReachableUnique start prev ->
    ReachableUnique start (moveSlide i (if up then (-1) else 1) prev).

(** ** Painting a slide (page.tsx, lines 18-19, 56-92 and 727-750) *)

Definition CANVAS_WIDTH : Q := 1280%Q.
Definition CANVAS_HEIGHT : Q := 720%Q.

(** The calls and assignments [drawSlide] and [wrapText] make on the 2d
    context, in the order they are made. *)
Inductive CanvasOp : Type :=
| Save
| Restore
| ClearRect (x y w h : Q)
| FillRect (x y w h : Q)
| FillText (text : string) (x y : Q)
| SetFillStyle (style : string)
| SetShadowColor (color : string)
| SetShadowBlur (blur : Q)
| SetFont (font : string)
| SetTextAlign (align : string).

(** [text.split(" ")]: the pieces between the spaces, at least one. *)
Fixpoint splitSpaces (text : string) : list string :=
  match text with
  | EmptyString => [EmptyString]
  | String c rest =>
      if Ascii.eqb c " "%char then EmptyString :: splitSpaces rest
      else match splitSpaces rest with
           | [] => [String c EmptyString]
           | word :: words => String c word :: words
           end
  end.

(** The variables of [wrapText]: [line], [lineY], and the [fillText] calls
    made so far. *)
Record WrapState : Type := mkWrap {
  line : string;
  lineY : Q;
  filled : list CanvasOp
}.

Section Painting.

(** [ctx.measureText(s).width] under the font in force, and
    [String.prototype.trim]: both are the host's. *)
Variable measureText : string -> Q.
Variable trim : string -> string.

(** The [for] loop of [wrapText], entered at [index] with the words from
    there on. *)
Fixpoint wrapLoop (words : list string) (index : nat) (x maxWidth lineHeight : Q)
  (st : WrapState) : WrapState :=
  match words with
  | [] => st
  | word :: words' =>
      let testLine := (line st ++ word ++ " ")%string in
      if negb (Qle_bool (measureText testLine) maxWidth) && Nat.ltb 0 index
      then wrapLoop words' (S index) x maxWidth lineHeight
             {| line := (word ++ " ")%string;
                lineY := (lineY st + lineHeight)%Q;
                filled := filled st ++ [FillText (trim (line st)) x (lineY st)] |}
      else wrapLoop words' (S index) x maxWidth lineHeight
             {| line := testLine; lineY := lineY st; filled := filled st |}
  end.

Definition wrapText (text : string) (x y maxWidth lineHeight : Q)
  : list CanvasOp :=
  let st := wrapLoop (splitSpaces text) 0 x maxWidth lineHeight
              {| line := ""; lineY := y; filled := [] |} in
  filled st ++ [FillText (trim (line st)) x (lineY st)].

(** [slide.background || "#1f2937"]: the empty string is falsy. *)
Definition backgroundOf (slide : Slide) : string :=
  match background slide with
  | EmptyString => "#1f2937"%string
  | b => b
  end.

(** [Math.min(Math.max(localProgress, 0), 1)]. *)
Definition clampProgress (localProgress : Q) : Q :=
  Qmin (Qmax localProgress 0%Q) 1%Q.

Definition drawSlide (slide : Slide) (localProgress : Q) : list CanvasOp :=
  let padding : Q := 120%Q in
  let indicatorWidth := (CANVAS_WIDTH - padding * 2)%Q in
  let indicatorHeight : Q := 14%Q in
  let indicatorX := padding in
  let indicatorY := (CANVAS_HEIGHT - padding + 40)%Q in
  [ Save;
    ClearRect 0%Q 0%Q CANVAS_WIDTH CANVAS_HEIGHT;
    SetFillStyle (backgroundOf slide);
    FillRect 0%Q 0%Q CANVAS_WIDTH CANVAS_HEIGHT;
    SetFillStyle "rgba(15, 23, 42, 0.85)";
    FillRect padding padding (CANVAS_WIDTH - padding * 2)%Q
      (CANVAS_HEIGHT - padding * 2)%Q;
    SetFillStyle "#f8fafc";
    SetShadowColor "rgba(15, 23, 42, 0.4)";
    SetShadowBlur 12%Q;
    SetFont "bold 64px 'Inter', sans-serif";
    SetTextAlign "center";
    FillText (title slide) (CANVAS_WIDTH / 2)%Q (CANVAS_HEIGHT / 2 - 40)%Q;
    SetShadowBlur 0%Q;
    SetFont "28px 'Inter', sans-serif";
    SetFillStyle "rgba(226, 232, 240, 0.9)" ]
  ++ wrapText (body slide) (CANVAS_WIDTH / 2)%Q (CANVAS_HEIGHT / 2 + 30)%Q
       (CANVAS_WIDTH - padding * 2 - 80)%Q 40%Q
  ++ [ SetFillStyle "rgba(226, 232, 240, 0.25)";
       FillRect indicatorX indicatorY indicatorWidth indicatorHeight;
       SetFillStyle "#f8fafc";
       FillRect indicatorX indicatorY
         (indicatorWidth * clampProgress localProgress)%Q indicatorHeight;
       Restore ].

End Painting.

(** The texts of the [fillText] calls among some context operations. *)
Fixpoint textsOf (ops : list CanvasOp) : list string :=
  match ops with
  | [] => []
  | FillText text _ _ :: ops' => text :: textsOf ops'
  | _ :: ops' => textsOf ops'
  end.

(** [words.join(" ")]. *)
Fixpoint joinSpaces (words : list string) : string :=
  match words with
  | [] => EmptyString
  | [word] => word
  | word :: words' => (word ++ " " ++ joinSpaces words')%string
  end.

(** The strings of a list, one after the other. *)
Definition flatten (l : list string) : string :=
  fold_right String.append EmptyString l.

(** A line of wrapped text is acceptable when it measures at most
    [maxWidth] or holds a single word (with the space after it). *)
Definition fitsOrSingle (measureText : string -> Q) (maxWidth : Q)
  (words : list string) (l : string) : Prop :=
  (exists word, In word words /\ l = (word ++ " ")%string)
  \/ (measureText l <= maxWidth)%Q.

(** A host that measures every character 10 pixels wide, for examples. *)
Definition tenPerChar (s : string) : Q :=
  (inject_Z (Z.of_nat (String.length s)) * 10)%Q.

(** ** The rest of the editor (page.tsx, lines 331-334 and 471-479) *)


(** [Math.max(1, Number(event.target.value) || 1)], on the number the field
    holds; [None] is [NaN]. *)
Definition durationInput (value : option Q) : Q :=
  Qmax 1%Q (match value with
            | Some v => if Qeq_bool v 0%Q then 1%Q else v
            | None => 1%Q
            end).

(** The patches the four inputs of a slide card produce. *)
Inductive EditorPatch : SlidePatch -> Prop :=
| patch_title t : EditorPatch (mkPatch None (Some t) None None None)
| patch_body b : EditorPatch (mkPatch None None (Some b) None None)
| patch_duration value :
    EditorPatch (mkPatch None None None None (Some (durationInput value)))
| patch_background c : EditorPatch (mkPatch None None None (Some c) None).

(** The edits the editor's buttons and inputs can make. *)
Definition editorEdit (e : Edit) : Prop :=
  match e with
  | UpdateSlide _ patch => EditorPatch patch
  | _ => True
  end.


(** ** The rest of the capture session (page.tsx, lines 183-189, 324-329) *)

(** [URL.revokeObjectURL(url)]. *)
Definition revokeObjectURL (url : nat) : Op unit :=
  modify (fun w =>
    set_objectURLs
      (filter (fun e => negb (Nat.eqb (fst e) url)) (objectURLs w)) w).

(** [resetRecording]. *)
Definition resetRecording : Op unit :=
  w <- get ;;
  match recordedUrl w with
  | Some url => revokeObjectURL url
  | None => ret tt
  end ;;
  modify (setRecordedUrl None).

(** The function the first effect returns:
    [stopPlayback(); recorderRef.current?.stream.getTracks().forEach(...)]. *)
Definition effectCleanup : Op unit :=
  stopPlayback ;;
  w <- get ;;
  match recorderRef w with
  | None => ret tt
  | Some r =>
      match nth_error (recorders w) r with
      | Some x => stopTracks (rec_stream x)
      | None => throw
      end
  end.

(** The data events of a recorder, one after the other. *)
Fixpoint deliver (events : list (option Blob)) : Op unit :=
  match events with
  | [] => ret tt
  | data :: events' => ondataavailable data ;; deliver events'
  end.

(** The fragments among some data events that are present and not empty. *)
Definition retained (events : list (option Blob)) : list Blob :=
  flat_map (fun data => match data with
                        | Some blob =>
                            if Nat.ltb 0 (blob_size blob) then [blob] else []
                        | None => []
                        end) events.

(** What can happen to the component: its handlers are called, the browser
    fires a pending frame or a recorder event, the effect is cleaned up. *)
Inductive Action : Type :=
| DoRunTimeline (loop : bool) (onComplete : option nat) (now : Q)
| DoStopPlayback
| DoRenderVideo (now : Q)
| DoFireFrame (h : nat) (now : Q)
| DoDataAvailable (data : option Blob)
| DoRecorderStop (r : nat)
| DoResetRecording
| DoEffectCleanup.

Definition perform (api : option MediaRecorderClass) (a : Action) : Op unit :=
  match a with
  | DoRunTimeline loop onComplete now => runTimeline loop onComplete now
  | DoStopPlayback => stopPlayback
  | DoRenderVideo now => renderVideo api now
  | DoFireFrame h now => fireFrame h now
  | DoDataAvailable data => ondataavailable data
  | DoRecorderStop r => onstop r
  | DoResetRecording => resetRecording
  | DoEffectCleanup => effectCleanup
  end.

(** A handler that throws leaves the world as it was at the throw; the
    next event finds it so. *)
Definition performAll (api : option MediaRecorderClass) (actions : list Action)
  (w : World) : World :=
  fold_left (fun w a => exec (perform api a) w) actions w.

(** At most one animation frame is pending; it is the one [animationRef]
    names, and its handle is one the browser has given out. *)
Definition singleChain (w : World) : Prop :=
  (0 < nextHandle w)%nat /\
  (pending w = [] \/
   exists h c, pending w = [(h, c)] /\ animationRef w = Some h /\
               (0 < h < nextHandle w)%nat).

(** The browser runs the callback of the pending animation frame, if there
    is one, at time [now]; and does so at each of a list of times. *)
Definition firePending (now : Q) : Op unit :=
  w <- get ;;
  match pending w with
  | (h, _) :: _ => fireFrame h now
  | [] => ret tt
  end.

Fixpoint fireAll (times : list Q) : Op unit :=
  match times with
  | [] => ret tt
  | now :: times' => firePending now ;; fireAll times'
  end.

(** * Properties *)

(** ** Timeline builder *)


Lemma fold_left_durations_acc (segs : list TimelineSegment) (a : Z) :
  fold_left (fun sum segment => sum + durationMs segment) segs a
  = a + sumZ (map durationMs segs).
Proof.
  revert a. induction segs as [|s segs IH]; intros a; simpl.
  - lia.
  - rewrite IH. lia.
Qed.

Lemma sumDurations_sumZ (segs : list TimelineSegment) :
  sumDurations segs = sumZ (map durationMs segs).
Proof. unfold sumDurations. rewrite fold_left_durations_acc. lia. Qed.

Lemma sumDurations_app (l1 l2 : list TimelineSegment) :
  sumDurations (l1 ++ l2) = sumDurations l1 + sumDurations l2.
Proof.
  rewrite !sumDurations_sumZ, map_app.
  induction (map durationMs l1) as [|d ds IH]; simpl; lia.
Qed.

Lemma toSegment_positive (slide : Slide) : 1 <= durationMs (toSegment slide).
Proof. simpl. lia. Qed.

Lemma sumDurations_length (segs : list TimelineSegment) :
  Forall (fun s => 1 <= durationMs s) segs ->
  Z.of_nat (length segs) <= sumDurations segs.
Proof.
  rewrite sumDurations_sumZ.
  induction 1 as [|s segs Hs _ IH]; simpl sumZ; simpl length; lia.
Qed.

Lemma timeline_segments_positive (slides : list Slide) :
  Forall (fun s => 1 <= durationMs s) (segments (timeline slides)).
Proof.
  simpl. apply Forall_forall. intros s Hin.
  apply in_map_iff in Hin. destruct Hin as [slide [<- _]].
  apply toSegment_positive.
Qed.

Lemma timeline_total (slides : list Slide) :
  slides <> [] ->
  totalDurationMs (timeline slides) = sumDurations (segments (timeline slides))
  /\ 1 <= totalDurationMs (timeline slides).
Proof.
  intros Hne.
  pose proof (sumDurations_length _ (timeline_segments_positive slides)) as Hlen.
  simpl in *. rewrite length_map in Hlen.
  destruct slides as [|s l]; [congruence|]. simpl length in Hlen.
  split; lia.
Qed.



Example Math_round_halves :
  Math_round (15 # 10) = 2 /\ Math_round (14 # 10) = 1
  /\ Math_round (- (1 # 2)) = 0 /\ Math_round (- (15 # 10)) = -1.
Proof. repeat split. Qed.

Example timeline_two_slides :
  timeline [slideOf "a" 4; slideOf "b" 2]
  = {| segments := [ {| seg_id := "a"; durationMs := 4000 |};
                     {| seg_id := "b"; durationMs := 2000 |} ];
       totalDurationMs := 6000 |}.
Proof. reflexivity. Qed.

Example timeline_degenerate :
  totalDurationMs (timeline []) = 1 /\
  map durationMs (segments (timeline [slideOf "a" 0; slideOf "b" (-3)]))
  = [1; 1].
Proof. split; reflexivity. Qed.

(** ** Frame mapper *)

Example mapFrame_second_slide_half :
  exists p, mapFrame (timeline [slideOf "a" 4; slideOf "b" 2]) 5000
            = Some (1%nat, p) /\ (p == 1 # 2)%Q.
Proof. eexists. split; reflexivity. Qed.

Example mapFrame_single_slide_half :
  exists p, mapFrame (timeline [slideOf "a" 1]) 500 = Some (0%nat, p)
            /\ (p == 1 # 2)%Q.
Proof. eexists. split; reflexivity. Qed.

Example mapFrame_start :
  mapFrame (timeline [slideOf "a" 4; slideOf "b" 2]) (-5)
  = mapFrame (timeline [slideOf "a" 4; slideOf "b" 2]) 0.
Proof. reflexivity. Qed.

Lemma consumed_S (segs : list TimelineSegment) (k : nat) (s : TimelineSegment) :
  nth_error segs k = Some s ->
  consumed segs (S k) = consumed segs k + durationMs s.
Proof.
  unfold consumed. revert k.
  induction segs as [|a segs IH]; intros [|k] H; simpl in H; try discriminate.
  - injection H as ->. simpl. unfold sumDurations. simpl. lia.
  - change (firstn (S (S k)) (a :: segs)) with ([a] ++ firstn (S k) segs).
    change (firstn (S k) (a :: segs)) with ([a] ++ firstn k segs).
    rewrite !sumDurations_app, (IH _ H). lia.
Qed.

Lemma consumed_all (segs : list TimelineSegment) :
  consumed segs (length segs) = sumDurations segs.
Proof. unfold consumed. now rewrite firstn_all. Qed.

Section ScanLoop.

Variable segs : list TimelineSegment.
Variable clamped : Q.

(** The loop of [drawFrame], entered at index [length pre] with the time left
    there, stops at the first segment from there on that fits, or at the last
    segment. *)
Lemma scanFrom_first_fit (rest pre : list TimelineSegment) (st : Scan) :
  segs = pre ++ rest ->
  rest <> [] ->
  (remaining st == remainingAt segs clamped (length pre))%Q ->
  let s' := scanFrom (length segs) rest (length pre) st in
  exists seg,
    nth_error segs (activeIndex s') = Some seg /\
    currentSegment s' = Some seg /\
    (remaining s' == remainingAt segs clamped (activeIndex s'))%Q /\
    (fitsAt segs clamped (activeIndex s')
     \/ activeIndex s' = (length segs - 1)%nat) /\
    (forall j, (length pre <= j < activeIndex s')%nat -> ~ fitsAt segs clamped j).
Proof.
  revert pre st.
  induction rest as [|segment rest' IH]; intros pre st Hsegs Hne Hrem;
    [congruence|].
  assert (Hnth : nth_error segs (length pre) = Some segment).
  { rewrite Hsegs, nth_error_app2, Nat.sub_diag by lia. reflexivity. }
  simpl scanFrom.
  destruct (Qle_bool (remaining st) (inject_Z (durationMs segment))) eqn:Hq.
  - simpl. exists segment. repeat split; auto; try lia.
    left. exists segment. split; auto.
    apply Qle_bool_iff in Hq. now rewrite <- Hrem.
  - simpl orb.
    destruct (Nat.eqb (length pre) (length segs - 1)) eqn:He.
    + apply Nat.eqb_eq in He. simpl.
      exists segment. repeat split; auto; lia.
    + apply Nat.eqb_neq in He.
      assert (Hne' : rest' <> []).
      { intros ->. apply He. rewrite Hsegs, length_app. simpl. lia. }
      assert (Hlen : length (pre ++ [segment]) = S (length pre)).
      { rewrite length_app. simpl. lia. }
      rewrite <- Hlen.
      destruct (IH (pre ++ [segment])
                  {| remaining := (remaining st - inject_Z (durationMs segment))%Q;
                     activeIndex := activeIndex st;
                     currentSegment := currentSegment st |})
        as [seg [H1 [H2 [H3 [H4 H5]]]]]; auto.
      * now rewrite <- app_assoc.
      * simpl remaining. rewrite Hlen. unfold remainingAt in *.
        rewrite (consumed_S _ _ _ Hnth), inject_Z_plus, Hrem. ring.
      * exists seg. repeat split; auto.
        intros j Hj Hfit.
        destruct (Nat.eq_dec j (length pre)) as [->|Hneq].
        -- destruct Hfit as [s [Hs Hle]].
           rewrite Hnth in Hs. injection Hs as <-.
           rewrite <- Hrem in Hle. apply Qle_bool_iff in Hle. congruence.
        -- apply (H5 j); auto. lia.
Qed.

End ScanLoop.

Lemma scanTimeline_first_fit (tl : Timeline) (elapsedMs : Q) :
  segments tl <> [] ->
  let segs := segments tl in
  let clamped := clampElapsed tl elapsedMs in
  let s' := scanTimeline tl elapsedMs in
  exists seg,
    nth_error segs (activeIndex s') = Some seg /\
    currentSegment s' = Some seg /\
    (remaining s' == remainingAt segs clamped (activeIndex s'))%Q /\
    (fitsAt segs clamped (activeIndex s')
     \/ activeIndex s' = (length segs - 1)%nat) /\
    (forall j, (j < activeIndex s')%nat -> ~ fitsAt segs clamped j).
Proof.
  intros Hne segs clamped s'.
  destruct (scanFrom_first_fit segs clamped segs []
              {| remaining := clamped; activeIndex := 0%nat;
                 currentSegment := nth_error segs 0 |})
    as [seg [H1 [H2 [H3 [H4 H5]]]]]; auto.
  - simpl. unfold remainingAt, consumed, sumDurations. simpl. ring.
  - exists seg. repeat split; auto.
    intros j Hj. apply H5. split; [simpl; lia | exact Hj].
Qed.

Lemma nth_segment_positive (segs : list TimelineSegment) (k : nat)
  (s : TimelineSegment) :
  Forall (fun s => 1 <= durationMs s) segs ->
  nth_error segs k = Some s -> 1 <= durationMs s.
Proof.
  intros Hpos Hk. rewrite Forall_forall in Hpos.
  apply Hpos. eapply nth_error_In; eauto.
Qed.




Lemma clampElapsed_range (tl : Timeline) (elapsedMs : Q) :
  1 <= totalDurationMs tl ->
  let last := inject_Z (totalDurationMs tl - 1) in
  let clamped := clampElapsed tl elapsedMs in
  (0 <= clamped /\ clamped <= last)%Q /\
  ((0 <= elapsedMs /\ elapsedMs <= last)%Q -> (clamped == elapsedMs)%Q) /\
  ((elapsedMs <= 0)%Q -> (clamped == 0)%Q) /\
  ((last <= elapsedMs)%Q -> (clamped == last)%Q).
Proof.
  intros Htot last clamped.
  assert (Hlast : (0 <= last)%Q).
  { subst last. rewrite <- (Zle_Qle 0). lia. }
  subst clamped. unfold clampElapsed. fold last.
  destruct (Q.min_spec elapsedMs last) as [[Hlt Hmin]|[Hle Hmin]];
  destruct (Q.max_spec 0 (Qmin elapsedMs last)) as [[Hlt' Hmax]|[Hle' Hmax]];
    rewrite Hmax; rewrite Hmin in *; repeat split; intros; lra.
Qed.








(** ** drawFrame *)

Lemma mapFrame_defined (slides : list Slide) (elapsedMs : Q) :
  slides <> [] ->
  exists k p, mapFrame (timeline slides) elapsedMs = Some (k, p)
              /\ (k < length slides)%nat.
Proof.
  intros Hne.
  assert (Hsegs : segments (timeline slides) <> []).
  { simpl. destruct slides; [congruence|discriminate]. }
  destruct (scanTimeline_first_fit _ elapsedMs Hsegs) as [seg [H1 [H2 _]]].
  unfold mapFrame, progressOf. rewrite H2. eexists. eexists. split; eauto.
  rewrite <- (length_map toSegment). apply nth_error_Some.
  simpl in H1. congruence.
Qed.

(** [drawFrame] never throws: it skips the frame when the canvas, its
    context or the slides are missing, and otherwise calls [drawSlide]
    once, with the frame the mapper chose. *)
Lemma drawFrame_outcome (slides : list Slide) (elapsedMs : Q) (w : World) :
  (drawFrame slides elapsedMs w = Returned tt w /\
   (canvasRef w = None
    \/ (exists canvas, canvasRef w = Some canvas /\ context2d canvas = false)
    \/ slides = []))
  \/
  (exists canvas index progress,
     canvasRef w = Some canvas /\ context2d canvas = true /\ slides <> [] /\
     mapFrame (timeline slides) elapsedMs = Some (index, progress) /\
     drawFrame slides elapsedMs w
     = Returned tt
         (set_trace (trace w ++ [DrawSlide (nth_error slides index) index progress])
            w)).
Proof.
  unfold drawFrame, bind, get.
  destruct (canvasRef w) as [canvas|] eqn:Hc; [|left; auto].
  destruct (context2d canvas) eqn:Hctx; simpl.
  2:{ left. split; auto. right. left. now exists canvas. }
  destruct slides as [|s l] eqn:Hs; [left; auto|].
  rewrite <- Hs. assert (Hne : slides <> []) by (subst; discriminate).
  replace (Nat.eqb (length slides) 0) with false
    by (subst; reflexivity).
  destruct (mapFrame_defined slides elapsedMs Hne) as [k [p [Hm _]]].
  right. exists canvas, k, p. rewrite Hm. repeat split; auto.
Qed.

Lemma drawFrame_returns (slides : list Slide) (elapsedMs : Q) (w : World) :
  drawFrame slides elapsedMs w
  = Returned tt (exec (drawFrame slides elapsedMs) w).
Proof.
  unfold exec.
  destruct (drawFrame_outcome slides elapsedMs w)
    as [[H _]|[cv [i [p [_ [_ [_ [_ H]]]]]]]]; now rewrite H.
Qed.

(** [drawFrame] changes nothing but the trace of painter calls. *)
Lemma drawFrame_frame (slides : list Slide) (elapsedMs : Q) (w : World) :
  exists events,
    exec (drawFrame slides elapsedMs) w = set_trace (trace w ++ events) w
    /\ (length events <= 1)%nat.
Proof.
  unfold exec.
  destruct (drawFrame_outcome slides elapsedMs w)
    as [[H _]|[cv [i [p [_ [_ [_ [_ H]]]]]]]]; rewrite H.
  - exists []. rewrite app_nil_r. split; [now destruct w|simpl; lia].
  - eexists. split; [reflexivity|simpl; lia].
Qed.

(** ** Playback loop *)

Lemma Qle_bool_false_lt (x y : Q) : Qle_bool x y = false <-> (y < x)%Q.
Proof.
  split; intros H.
  - apply Qnot_le_lt. intros Hle. apply Qle_bool_iff in Hle. congruence.
  - destruct (Qle_bool x y) eqn:Hb; auto.
    apply Qle_bool_iff in Hb. apply Qlt_not_le in H. contradiction.
Qed.

(** C4. In a live step of the playback loop, with [elapsed = now - start]:
    if [elapsed >= totalDurationMs], [drawFrame(totalDurationMs - 1)] runs
    once and then, when looping, the closure is scheduled again with
    [start = now]; when not looping, nothing is scheduled, [playingRef] and
    [isPlaying] are cleared and [onComplete], if given, is called.  If
    [elapsed < totalDurationMs], [drawFrame(elapsed)] runs and the closure
    is scheduled again.  A [drawFrame] call paints exactly one frame, the
    one the mapper chose, when the canvas is ready. *)
Theorem playback_step (c : Tick) (loop : bool) (onComplete : option nat)
  (now : Q) (w : World) :
  playingRef w = true ->
  let slides := t_slides c in
  let total := totalDurationMs (timeline slides) in
  let elapsed := (now - t_start c)%Q in
  let final := exec (drawFrame slides (inject_Z (total - 1))) w in
  let current := exec (drawFrame slides elapsed) w in
  ((inject_Z total <= elapsed)%Q -> loop = true ->
   tick c loop onComplete now w
   = Returned tt
       (set_animationRef (Some (nextHandle final))
          (set_nextHandle (S (nextHandle final))
             (set_pending
                (pending final ++
                   [(nextHandle final,
                     {| t_slides := slides; t_kind := t_kind c;
                        t_start := now |})])
                final)))) /\
  ((inject_Z total <= elapsed)%Q -> loop = false ->
   tick c loop onComplete now w
   = Returned tt
       (set_trace
          (trace final ++ match onComplete with
                          | Some callback => [OnComplete callback]
                          | None => []
                          end)
          (setIsPlaying false (set_playingRef false final)))) /\
  ((elapsed < inject_Z total)%Q ->
   tick c loop onComplete now w
   = Returned tt
       (set_animationRef (Some (nextHandle current))
          (set_nextHandle (S (nextHandle current))
             (set_pending (pending current ++ [(nextHandle current, c)])
                current)))) /\
  (forall e canvas,
     canvasRef w = Some canvas -> context2d canvas = true -> slides <> [] ->
     exists index progress,
       mapFrame (timeline slides) e = Some (index, progress) /\
       exec (drawFrame slides e) w
       = set_trace
           (trace w ++ [DrawSlide (nth_error slides index) index progress]) w).
Proof.
  intros Hlive slides total elapsed final current.
  repeat split.
  - intros Hover ->. apply Qle_bool_iff in Hover.
    unfold tick, bind, get. rewrite Hlive. cbn [negb]. cbv beta iota zeta.
    fold slides total elapsed. rewrite Hover, drawFrame_returns.
    reflexivity.
  - intros Hover ->. apply Qle_bool_iff in Hover.
    unfold tick, bind, get. rewrite Hlive. cbn [negb]. cbv beta iota zeta.
    fold slides total elapsed. rewrite Hover, drawFrame_returns.
    fold final. destruct onComplete as [callback|]; simpl.
    + reflexivity.
    + rewrite app_nil_r. now destruct final.
  - intros Hunder. apply Qle_bool_false_lt in Hunder.
    unfold tick, bind, get. rewrite Hlive. cbn [negb]. cbv beta iota zeta.
    fold slides total elapsed. rewrite Hunder, drawFrame_returns.
    reflexivity.
  - intros e canvas Hc Hctx Hne.
    destruct (drawFrame_outcome slides e w)
      as [[_ [H|[[cv [H1 H2]]|H]]]|[cv [i [p [_ [_ [_ [Hm H]]]]]]]];
      try congruence.
    exists i, p. split; auto. unfold exec. now rewrite H.
Qed.

Lemma playback_step_witness :
  let slides := INITIAL_SLIDES None None in
  let w := set_playingRef true (initialWorld (Some readyCanvas) slides) in
  let c := {| t_slides := slides; t_kind := PlaybackTick false (Some 7%nat);
              t_start := 0 |} in
  playingRef w = true /\
  exists w', tick c false (Some 7%nat) 8000 w = Returned tt w' /\
             playingRef w' = false /\ pending w' = [].
Proof.
  intros slides w c. split; [reflexivity|].
  destruct (playback_step c false (Some 7%nat) 8000 w eq_refl) as [_ [H _]].
  eexists. split; [|split].
  - apply H; [vm_compute; discriminate|reflexivity].
  - reflexivity.
  - vm_compute. reflexivity.
Defined.

Lemma runTick_cancelled (c : Tick) (now : Q) (w : World) :
  playingRef w = false -> runTick c now w = Returned tt w.
Proof.
  intros H. unfold runTick, tick, captureTick, bind, get.
  destruct (t_kind c); rewrite H; reflexivity.
Qed.

Lemma runTicks_cancelled (steps : list (Tick * Q)) (w : World) :
  playingRef w = false -> runTicks steps w = Returned tt w.
Proof.
  intros H. induction steps as [|[c now] steps IH]; simpl; [reflexivity|].
  unfold bind. now rewrite runTick_cancelled.
Qed.

(** C5. [stopPlayback] clears [playingRef] and takes the pending frame out
    of the browser's queue; whatever steps run afterwards, in flight or
    fired later, each returns at its liveness check: the world stays as
    [stopPlayback] left it, so no frame is painted, no step is scheduled and
    [onComplete] is not called. *)
Theorem cancelled_steps_do_nothing (w : World) (steps : list (Tick * Q)) :
  let w' := exec stopPlayback w in
  stopPlayback w = Returned tt w' /\
  playingRef w' = false /\
  (forall h, truthyHandle (animationRef w) = Some h ->
             ~ In h (map fst (pending w'))) /\
  runTicks steps w' = Returned tt w'.
Proof.
  intros w'.
  assert (Hflag : playingRef w' = false).
  { subst w'. unfold exec, stopPlayback, cancelCurrentFrame, bind, get, modify.
    simpl. destruct (truthyHandle (animationRef w)); reflexivity. }
  repeat split; auto.
  - subst w'. unfold exec, stopPlayback, cancelCurrentFrame, bind, get, modify.
    simpl. destruct (truthyHandle (animationRef w)); reflexivity.
  - intros h Hh Hin. subst w'.
    unfold exec, stopPlayback, cancelCurrentFrame, bind, get, modify in Hin.
    simpl in Hin. rewrite Hh in Hin. simpl in Hin.
    apply in_map_iff in Hin. destruct Hin as [[h' t] [Heq Hin]].
    simpl in Heq. subst h'. apply filter_In in Hin. destruct Hin as [_ Hin].
    simpl in Hin. rewrite Nat.eqb_refl in Hin. discriminate.
  - now apply runTicks_cancelled.
Qed.

Lemma cancelled_steps_do_nothing_witness :
  let slides := INITIAL_SLIDES None None in
  let w := exec (playPreview 0) (initialWorld (Some readyCanvas) slides) in
  let w' := exec stopPlayback w in
  truthyHandle (animationRef w) = Some 1%nat /\
  In 1%nat (map fst (pending w)) /\
  ~ In 1%nat (map fst (pending w')).
Proof.
  intros slides w w'. split; [reflexivity|]. split; [left; reflexivity|].
  apply (proj1 (proj2 (proj2 (cancelled_steps_do_nothing w [])))).
  reflexivity.
Defined.

(** ** Capture session *)

Section CaptureProperties.

Variable MediaRecorderGlobal : option MediaRecorderClass.

Lemma runTimeline_empty (loop : bool) (onComplete : option nat) (now : Q)
  (w : World) :
  slides w = [] -> runTimeline loop onComplete now w = Returned tt w.
Proof. intros H. unfold runTimeline, bind, get. now rewrite H. Qed.

Lemma renderVideo_guard (now : Q) (w : World) :
  slides w = [] \/ isRecording w = true ->
  renderVideo MediaRecorderGlobal now w = Returned tt w.
Proof.
  intros H. unfold renderVideo, bind, get.
  destruct H as [H|H]; rewrite H; simpl; [reflexivity|].
  now rewrite orb_true_r.
Qed.

(** C6, amended. With an empty slide list [runTimeline] and [renderVideo]
    return at once and change nothing: nothing is painted or scheduled, no
    flag is set, and the status message stays what it was. *)
Theorem empty_slides_rejected_silently (loop : bool) (onComplete : option nat)
  (now : Q) (w : World) :
  slides w = [] ->
  runTimeline loop onComplete now w = Returned tt w /\
  renderVideo MediaRecorderGlobal now w = Returned tt w.
Proof.
  intros H. split.
  - now apply runTimeline_empty.
  - apply renderVideo_guard. now left.
Qed.

(** C7. While a capture is in progress a further [renderVideo] returns at
    once and leaves the world as it was, so whatever happens afterwards to
    the capture in progress, recorder events included, happens as if the
    call had not been made. *)
Theorem second_capture_rejected (now : Q) (w : World) :
  isRecording w = true ->
  renderVideo MediaRecorderGlobal now w = Returned tt w /\
  (forall (A : Type) (later : Op A),
     (renderVideo MediaRecorderGlobal now ;; later) w = later w).
Proof.
  intros H.
  assert (Hr : renderVideo MediaRecorderGlobal now w = Returned tt w)
    by (apply renderVideo_guard; now right).
  split; auto.
  intros A later. unfold bind. now rewrite Hr.
Qed.

End CaptureProperties.

(** C6, the claim as stated fails: with an empty slide list neither
    [runTimeline] nor [renderVideo] sets a status message. *)
Lemma empty_slides_status_counterexample :
  ~ (forall (api : option MediaRecorderClass) (w : World),
       slides w = [] ->
       (exists message,
          statusMessage (exec (runTimeline true None 0) w) = Some message) /\
       (exists message,
          statusMessage (exec (renderVideo api 0) w) = Some message)).
Proof.
  intros H.
  destruct (H None (initialWorld (Some readyCanvas) []) eq_refl)
    as [[message Hm] _].
  discriminate Hm.
Qed.

Lemma empty_slides_rejected_silently_witness :
  let w := initialWorld (Some readyCanvas) [] in
  slides w = [] /\
  runTimeline true None 0 w = Returned tt w /\
  renderVideo None 0 w = Returned tt w.
Proof.
  intros w. split; [reflexivity|].
  apply (empty_slides_rejected_silently None true None 0 w). reflexivity.
Defined.

Lemma second_capture_rejected_witness :
  let w := exec (renderVideo (Some vp8Host) 0)
             (initialWorld (Some readyCanvas) (INITIAL_SLIDES None None)) in
  isRecording w = true /\ renderVideo (Some vp8Host) 100 w = Returned tt w.
Proof.
  intros w. split; [reflexivity|].
  apply (second_capture_rejected (Some vp8Host) 100 w). reflexivity.
Defined.

Lemma stopAt_last (ss : list MediaStream) (s : MediaStream) :
  stopAt (length ss) (ss ++ [s]) = ss ++ [map (fun _ => Ended) s].
Proof. induction ss as [|x ss IH]; simpl; [reflexivity|now rewrite IH]. Qed.

Lemma length_zero_eqb {A : Type} (l : list A) :
  l <> [] -> Nat.eqb (length l) 0 = false.
Proof. destruct l; [congruence|reflexivity]. Qed.

Lemma filter_subset {A : Type} (f : A -> bool) (l : list A) (x : A) :
  In x (filter f l) -> In x l.
Proof. intros H. now apply filter_In in H. Qed.

(** C9. When the [MediaRecorder] constructor throws, [renderVideo] returns
    normally having stopped every track of the stream it captured, with
    [playingRef], [isPlaying] and [isRecording] false and the failure in the
    status message; no recorder, object URL or recorded URL is created, no
    frame is painted and no step is scheduled. *)
Theorem construction_failure_cleans_up (api : option MediaRecorderClass)
  (now : Q) (w : World) (canvas : Canvas) :
  slides w <> [] ->
  isRecording w = false ->
  canvasRef w = Some canvas ->
  constructorThrows api (recorderOptions (selectMimeType api)) = true ->
  let w' := exec (renderVideo api now) w in
  renderVideo api now w = Returned tt w' /\
  streams w'
  = streams w ++ [repeat Ended (captureTracks canvas)] /\
  playingRef w' = false /\ isPlaying w' = false /\ isRecording w' = false /\
  statusMessage w'
  = Some "MediaRecorder is not supported in this browser."%string /\
  recorders w' = recorders w /\ recorderRef w' = recorderRef w /\
  recordedUrl w' = recordedUrl w /\ objectURLs w' = objectURLs w /\
  trace w' = trace w /\
  (forall e, In e (pending w') -> In e (pending w)).
Proof.
  intros Hne Hrec Hcanvas Hthrows w'.
  unfold constructorThrows in Hthrows.
  destruct w as [s ip ir sm ru cr ar pr rr rc pe nh st re ou nu tr].
  simpl in Hne, Hrec, Hcanvas. subst ir cr.
  destruct s as [|slide s]; [congruence|].
  subst w'. unfold exec.
  unfold renderVideo, bind, get, tryCatch, newMediaRecorder, captureStream,
    cancelCurrentFrame, cancelAnimationFrame, stopTracks, modify, ret, throw.
  cbn -[selectMimeType recorderOptions drawFrame stopAt].
  destruct ar as [[|h]|]; destruct api as [cls|];
    cbn -[selectMimeType recorderOptions drawFrame stopAt];
    try (apply negb_true_iff in Hthrows; rewrite Hthrows);
    cbn -[selectMimeType recorderOptions drawFrame stopAt];
    rewrite stopAt_last, map_repeat;
    repeat split; auto; intros e; apply filter_subset.
Qed.

Lemma construction_failure_cleans_up_witness :
  let w := initialWorld (Some readyCanvas) (INITIAL_SLIDES None None) in
  let w' := exec (renderVideo (Some rejectingHost) 0) w in
  (slides w <> [] /\ isRecording w = false /\ canvasRef w = Some readyCanvas
   /\ constructorThrows (Some rejectingHost)
        (recorderOptions (selectMimeType (Some rejectingHost))) = true) /\
  streams w' = streams w ++ [repeat Ended (captureTracks readyCanvas)] /\
  isRecording w' = false.
Proof.
  intros w w'.
  assert (Hne : slides w <> []) by discriminate.
  split; [repeat split; auto|].
  destruct (construction_failure_cleans_up (Some rejectingHost) 0 w readyCanvas
              Hne eq_refl eq_refl eq_refl) as [_ [Hs [_ [_ [Hr _]]]]].
  split; [exact Hs|exact Hr].
Defined.

(** ** Format negotiation *)

Lemma find_first {A : Type} (f : A -> bool) (l : list A) (c : A) :
  find f l = Some c <->
  exists before after,
    l = before ++ c :: after /\ f c = true /\
    (forall b, In b before -> f b = false).
Proof.
  induction l as [|x l IH]; simpl.
  - split; [discriminate|]. intros [[|b before] [after [H _]]]; discriminate.
  - destruct (f x) eqn:Hx.
    + split.
      * intros [= <-]. exists [], l. repeat split; auto. intros b [].
      * intros [[|b before] [after [H [Hc Hb]]]].
        -- simpl in H. now injection H as ->.
        -- simpl in H. injection H as -> _.
           rewrite (Hb b) in Hx by now left. discriminate.
    + rewrite IH. split.
      * intros [before [after [-> [Hc Hb]]]].
        exists (x :: before), after. repeat split; auto.
        intros b [<-|Hin]; auto.
      * intros [[|b before] [after [H [Hc Hb]]]].
        -- simpl in H. injection H as -> _. congruence.
        -- simpl in H. injection H as -> ->.
           exists before, after. repeat split; auto.
           intros b' Hin. apply Hb. now right.
Qed.

Lemma probe_supported (api : MediaRecorderClass) (c : string) :
  probe api c = true <-> isTypeSupported api c = Some true.
Proof.
  unfold probe. destruct (isTypeSupported api c) as [[|]|]; split; congruence.
Qed.

Lemma probe_unsupported (api : MediaRecorderClass) (c : string) :
  probe api c = false <-> isTypeSupported api c <> Some true.
Proof.
  unfold probe. destruct (isTypeSupported api c) as [[|]|]; split; congruence.
Qed.

Lemma recorderOptions_selected (api : option MediaRecorderClass) :
  recorderOptions (selectMimeType api) = selectMimeType api.
Proof.
  destruct api as [cls|]; [|reflexivity]. simpl.
  repeat match goal with
         | |- context [probe cls ?c] => destruct (probe cls c)
         end; reflexivity.
Qed.

Lemma setRecState_last (rs : list MediaRecorder) (x : MediaRecorder)
  (s : RecordingState) :
  setRecState (length rs) s (rs ++ [x])
  = rs ++ [{| rec_stream := rec_stream x; rec_options := rec_options x;
              rec_mimeType := rec_mimeType x; rec_state := s;
              rec_closureUrl := rec_closureUrl x |}].
Proof. induction rs as [|y rs IH]; simpl; [reflexivity|now rewrite IH]. Qed.

(** With the class present and its constructor accepting the descriptor,
    [renderVideo] constructs one recorder, on the captured stream, with the
    selected format as its descriptor. *)
Lemma renderVideo_constructs (cls : MediaRecorderClass) (now : Q) (w : World)
  (canvas : Canvas) :
  slides w <> [] ->
  isRecording w = false ->
  canvasRef w = Some canvas ->
  constructs cls (selectMimeType (Some cls)) = true ->
  exists r,
    recorders (exec (renderVideo (Some cls) now) w) = recorders w ++ [r] /\
    rec_options r = selectMimeType (Some cls) /\
    rec_stream r = length (streams w).
Proof.
  intros Hne Hrec Hcanvas Hok.
  destruct w as [s ip ir sm ru cr ar pr rr rc pe nh st re ou nu tr].
  simpl in Hne, Hrec, Hcanvas. subst ir cr.
  destruct s as [|slide s]; [congruence|].
  unfold exec.
  unfold renderVideo, bind, get, tryCatch, newMediaRecorder, recorderStart,
    captureStream, cancelCurrentFrame, cancelAnimationFrame, stopTracks,
    requestAnimationFrame, modify, ret, throw.
  cbn -[selectMimeType recorderOptions drawFrame stopAt setRecState].
  rewrite recorderOptions_selected, Hok.
  destruct ar as [[|h]|];
    cbn -[selectMimeType recorderOptions drawFrame stopAt setRecState];
    (destruct (starts cls);
     cbn -[selectMimeType recorderOptions drawFrame stopAt setRecState];
     [ rewrite drawFrame_returns;
       match goal with
       | |- context [exec (drawFrame ?sl ?e) ?x] =>
           destruct (drawFrame_frame sl e x) as [events [-> _]]
       end;
       cbn -[selectMimeType recorderOptions stopAt setRecState];
       rewrite setRecState_last
     | ]);
    eexists; repeat split.
Qed.

(** C8, the claim as stated fails where the [MediaRecorder] class is
    absent: [renderVideo] then constructs no recorder at all, with or
    without a format descriptor. *)
Lemma absent_recorder_class_counterexample :
  ~ (forall (w : World) (now : Q) (canvas : Canvas),
       slides w <> [] -> isRecording w = false -> canvasRef w = Some canvas ->
       exists r, In r (recorders (exec (renderVideo None now) w)) /\
                 rec_options r = None).
Proof.
  intros H.
  destruct (H (initialWorld (Some readyCanvas) (INITIAL_SLIDES None None))
              0%Q readyCanvas) as [r [Hin _]];
    try reflexivity; [discriminate|].
  exact Hin.
Qed.

(** C8, amended. [selectMimeType] probes vp9, vp8 and plain WebM in this
    order and selects the first candidate reported supported; a probe that
    throws counts as unsupported and nothing propagates.  When no candidate
    is supported nothing is selected and [renderVideo] constructs the
    recorder without a format descriptor; in general the constructor
    receives exactly the selected format.  When the [MediaRecorder] class is
    absent nothing is selected, no recorder is constructed and [renderVideo]
    ends on its failure path with the status message set. *)
Theorem format_negotiation (cls : MediaRecorderClass) :
  candidates
  = ["video/webm;codecs=vp9"; "video/webm;codecs=vp8"; "video/webm"]%string /\
  (forall c,
     selectMimeType (Some cls) = Some c <->
     exists before after,
       candidates = before ++ c :: after /\
       isTypeSupported cls c = Some true /\
       (forall b, In b before -> isTypeSupported cls b <> Some true)) /\
  ((forall c, In c candidates -> isTypeSupported cls c <> Some true) ->
   selectMimeType (Some cls) = None) /\
  (forall now w canvas,
     slides w <> [] -> isRecording w = false -> canvasRef w = Some canvas ->
     constructs cls (selectMimeType (Some cls)) = true ->
     exists r,
       recorders (exec (renderVideo (Some cls) now) w) = recorders w ++ [r] /\
       rec_options r = selectMimeType (Some cls)) /\
  (selectMimeType None = None /\
   forall now w canvas,
     slides w <> [] -> isRecording w = false -> canvasRef w = Some canvas ->
     let w' := exec (renderVideo None now) w in
     renderVideo None now w = Returned tt w' /\
     recorders w' = recorders w /\ recorderRef w' = recorderRef w /\
     statusMessage w'
     = Some "MediaRecorder is not supported in this browser."%string) /\
  (forall cls',
     (forall c, isTypeSupported cls' c
                = match isTypeSupported cls c with
                  | Some supported => Some supported
                  | None => Some false
                  end) ->
     selectMimeType (Some cls') = selectMimeType (Some cls)).
Proof.
  split; [reflexivity|]. split; [|split; [|split; [|split]]].
  - intros c. unfold selectMimeType. rewrite find_first.
    split; intros [before [after [H1 [H2 H3]]]]; exists before, after;
      repeat split; auto.
    + now apply probe_supported.
    + intros b Hb. apply probe_unsupported. auto.
    + now apply probe_supported.
    + intros b Hb. apply probe_unsupported. auto.
  - intros Hnone. unfold selectMimeType.
    destruct (find (probe cls) candidates) as [c|] eqn:Hf; auto.
    apply find_some in Hf. destruct Hf as [Hin Hp].
    apply probe_supported in Hp. now apply Hnone in Hin.
  - intros now w canvas Hne Hrec Hcanvas Hok.
    destruct (renderVideo_constructs cls now w canvas Hne Hrec Hcanvas Hok)
      as [r [H1 [H2 _]]].
    now exists r.
  - split; [reflexivity|].
    intros now w canvas Hne Hrec Hcanvas w'. subst w'.
    destruct w as [s ip ir sm ru cr ar pr rr rc pe nh st re ou nu tr].
    simpl in Hne, Hrec, Hcanvas. subst ir cr.
    destruct s as [|slide s]; [congruence|].
    unfold exec.
    unfold renderVideo, bind, get, tryCatch, newMediaRecorder, captureStream,
      cancelCurrentFrame, cancelAnimationFrame, stopTracks, modify, ret, throw.
    cbn -[stopAt]. destruct ar as [[|h]|]; cbn -[stopAt]; repeat split.
  - intros cls' Hsame. unfold selectMimeType. simpl. unfold probe.
    rewrite !Hsame.
    repeat match goal with
           | |- context [isTypeSupported cls ?c] =>
               destruct (isTypeSupported cls c) as [[|]|]
           end; reflexivity.
Qed.

Lemma format_negotiation_witness :
  let w := initialWorld (Some readyCanvas) (INITIAL_SLIDES None None) in
  (slides w <> [] /\ isRecording w = false /\ canvasRef w = Some readyCanvas /\
   constructs vp8Host (selectMimeType (Some vp8Host)) = true) /\
  exists r,
    recorders (exec (renderVideo (Some vp8Host) 0) w) = recorders w ++ [r] /\
    rec_options r = Some "video/webm;codecs=vp8"%string.
Proof.
  intros w.
  assert (Hne : slides w <> []) by discriminate.
  split; [repeat split; auto|].
  destruct (format_negotiation vp8Host) as [_ [_ [_ [H _]]]].
  destruct (H 0%Q w readyCanvas Hne eq_refl eq_refl eq_refl) as [r [H1 H2]].
  exists r. split; [exact H1|exact H2].
Defined.

(** ** Slide editing *)

Lemma removeSlide_short (i : string) (prev : list Slide) :
  (length prev <= 1)%nat -> removeSlide i prev = prev.
Proof.
  intros H. unfold removeSlide.
  now replace (Nat.leb (length prev) 1) with true
    by (symmetry; now apply Nat.leb_le).
Qed.

Lemma removeSlide_long (i : string) (prev : list Slide) :
  (2 <= length prev)%nat ->
  removeSlide i prev = filter (fun slide => negb (String.eqb (id slide) i)) prev
  /\ (forall slide, In slide (removeSlide i prev)
                    <-> In slide prev /\ id slide <> i).
Proof.
  intros H. unfold removeSlide.
  replace (Nat.leb (length prev) 1) with false
    by (symmetry; apply Nat.leb_gt; lia).
  split; [reflexivity|].
  intros slide. rewrite filter_In, negb_true_iff.
  destruct (String.eqb_spec (id slide) i); split; intros [H1 H2];
    split; congruence.
Qed.

Lemma removeSlide_unique (i : string) (prev : list Slide) :
  prev <> [] -> NoDup (map id prev) ->
  removeSlide i prev <> [] /\ NoDup (map id (removeSlide i prev)).
Proof.
  intros Hne Hnd. unfold removeSlide.
  destruct (Nat.leb (length prev) 1) eqn:Hlen; [auto|].
  split.
  - destruct prev as [|a [|b l]]; try discriminate.
    simpl in Hnd. inversion Hnd as [|? ? Ha _]; subst. simpl.
    destruct (String.eqb_spec (id a) i) as [Hai|]; simpl; [|discriminate].
    destruct (String.eqb_spec (id b) i) as [Hbi|]; simpl; [|discriminate].
    exfalso. apply Ha. left. congruence.
  - clear Hne Hlen. induction prev as [|a l IH]; simpl; [constructor|].
    inversion Hnd as [|? ? Ha Hl]; subst.
    destruct (negb (String.eqb (id a) i)); simpl; auto.
    constructor; auto.
    intros Hin. apply Ha. apply in_map_iff in Hin.
    destruct Hin as [x [Hx Hin]]. apply filter_In in Hin.
    apply in_map_iff. exists x. tauto.
Qed.

Lemma updateSlide_ids (i : string) (patch : SlidePatch) (prev : list Slide) :
  p_id patch = None -> map id (updateSlide i patch prev) = map id prev.
Proof.
  intros Hp. unfold updateSlide. rewrite map_map. apply map_ext.
  intros a. destruct (String.eqb (id a) i); [|reflexivity].
  simpl. now rewrite Hp.
Qed.

Lemma moveSlide_permutation (i : string) (direction : Z) (prev : list Slide) :
  Permutation prev (moveSlide i direction prev).
Proof.
  unfold moveSlide.
  destruct (findIndex _ prev) as [index|]; [|reflexivity].
  destruct (_ || _); [reflexivity|].
  destruct (nth_error prev index) as [removed|] eqn:Hn; [|reflexivity].
  set (updated := firstn index prev ++ skipn (S index) prev).
  set (target := Z.to_nat (Z.of_nat index + direction)).
  transitivity (removed :: updated).
  - rewrite <- (firstn_skipn index prev) at 1.
    assert (Hs : skipn index prev = removed :: skipn (S index) prev).
    { clear -Hn. revert index Hn.
      induction prev as [|a l IH]; intros [|k] H; simpl in *;
        try discriminate.
      - now injection H as ->.
      - now apply IH. }
    rewrite Hs. subst updated. symmetry. apply Permutation_middle.
  - rewrite <- (firstn_skipn target updated) at 1.
    apply Permutation_middle.
Qed.

(** With unique ids the slide list never becomes empty. *)
Lemma unique_ids_keep_slides (start prev : list Slide) :
  start <> [] -> NoDup (map id start) ->
  ReachableUnique start prev ->
  prev <> [] /\ NoDup (map id prev).
Proof.
  intros Hne Hnd. induction 1 as [|prev u _ [IH1 IH2] Hu
                                  |prev i patch _ [IH1 IH2] Hp
                                  |prev i _ [IH1 IH2]
                                  |prev i up _ [IH1 IH2]].
  - auto.
  - unfold addSlide. split.
    + destruct prev; discriminate.
    + rewrite map_app. simpl.
      apply (Permutation_NoDup (l := u :: map id prev)).
      * apply Permutation_cons_append.
      * now constructor.
  - split.
    + unfold updateSlide. destruct prev; [congruence|discriminate].
    + now rewrite updateSlide_ids.
  - now apply removeSlide_unique.
  - pose proof (moveSlide_permutation i (if up then (-1) else 1) prev) as Hperm.
    split.
    + intros Hnil. rewrite Hnil in Hperm.
      apply Permutation_sym, Permutation_nil in Hperm. congruence.
    + apply (Permutation_NoDup (l := map id prev)); auto.
      now apply Permutation_map.
Qed.

(** C10. Where the host lacks [crypto.randomUUID], the fallback id of a new
    slide is built from the length of the list: after removing the first of
    the two initial slides, the added slide gets the id of the one that is
    left, and removing that id filters both out.  The slide list is then
    empty, which is what [runTimeline] and [renderVideo] next see. *)
Theorem fallback_ids_empty_the_slide_list :
  let start := INITIAL_SLIDES None None in
  let two := applyEdits [RemoveSlide "slide-0"; AddSlide None] start in
  map id start = ["slide-0"; "slide-1"]%string /\
  map id two = ["slide-1"; "slide-1"]%string /\
  removeSlide "slide-1" two = [] /\
  applyEdits [RemoveSlide "slide-0"; AddSlide None; RemoveSlide "slide-1"] start
  = [].
Proof. repeat split. Qed.

(** ** A whole capture, step by step *)

Example capture_scenario :
  let w0 := initialWorld (Some readyCanvas) (INITIAL_SLIDES None None) in
  let w1 := exec (renderVideo (Some vp8Host) 0) w0 in
  let w2 := exec (fireFrame 1 5000) w1 in
  let w3 := exec (fireFrame 2 8000) w2 in
  let w4 := exec (ondataavailable (Some {| blob_size := 10; blob_type := "" |}) ;;
                  ondataavailable (Some {| blob_size := 0; blob_type := "" |}) ;;
                  onstop 0) w3 in
  (isRecording w1 = true /\ map fst (pending w1) = [1%nat]
   /\ streams w1 = [[Live]]) /\
  (map fst (pending w2) = [2%nat] /\ length (trace w2) = 2%nat) /\
  (pending w3 = [] /\ playingRef w3 = false /\ isRecording w3 = true
   /\ map rec_state (recorders w3) = [Inactive]) /\
  (isRecording w4 = false /\ recordedUrl w4 = Some 0%nat
   /\ map snd (objectURLs w4)
      = [ {| blob_size := 10; blob_type := "video/webm;codecs=vp8" |} ]
   /\ streams w4 = [[Ended]]).
Proof. vm_compute. repeat split. Qed.

(** ** Painting *)

Lemma string_app_nil_r (a : string) : (a ++ "")%string = a.
Proof. induction a as [|c a IH]; simpl; [reflexivity|now rewrite IH]. Qed.

Lemma string_app_assoc (a b c : string) :
  ((a ++ b) ++ c)%string = (a ++ b ++ c)%string.
Proof. induction a as [|x a IH]; simpl; [reflexivity|now rewrite IH]. Qed.

Lemma splitSpaces_nonempty (text : string) : splitSpaces text <> [].
Proof.
  destruct text as [|c rest]; simpl; [discriminate|].
  destruct (Ascii.eqb c " "); [discriminate|].
  destruct (splitSpaces rest); discriminate.
Qed.

Lemma joinSpaces_cons (word : string) (words : list string) :
  words <> [] ->
  joinSpaces (word :: words) = (word ++ " " ++ joinSpaces words)%string.
Proof. destruct words; [congruence|reflexivity]. Qed.

Lemma flatten_spaced_join (words : list string) :
  words <> [] ->
  flatten (map (fun word => (word ++ " ")%string) words)
  = (joinSpaces words ++ " ")%string.
Proof.
  induction words as [|word words IH]; [congruence|]. intros _.
  destruct words as [|word' words].
  - simpl. now rewrite string_app_nil_r.
  - rewrite joinSpaces_cons by discriminate.
    change (flatten (map (fun w => (w ++ " ")%string) (word :: word' :: words)))
      with ((word ++ " ")
              ++ flatten (map (fun w => (w ++ " ")%string) (word' :: words)))%string.
    rewrite IH by discriminate. now rewrite !string_app_assoc.
Qed.

Section WrapProperties.

Variable measureText : string -> Q.
Variable trim : string -> string.
Variables x maxWidth lineHeight : Q.
Variable allWords : list string.

Let Good : string -> Prop := fitsOrSingle measureText maxWidth allWords.
Let fillLine : string * Q -> CanvasOp :=
  fun p => FillText (trim (fst p)) x (snd p).

Lemma wrapLoop_lines (words : list string) :
  forall (index : nat) (st : WrapState),
    (forall word, In word words -> In word allWords) ->
    (index = 0%nat -> line st = EmptyString) ->
    (index <> 0%nat -> Good (line st)) ->
    let st' := wrapLoop measureText trim words index x maxWidth lineHeight st in
    exists done : list (string * Q),
      filled st' = filled st ++ map fillLine done /\
      (flatten (map fst done) ++ line st')%string
      = (line st ++ flatten (map (fun word => (word ++ " ")%string) words))%string /\
      Forall Good (map fst done) /\
      (words <> [] \/ index <> 0%nat -> Good (line st')) /\
      (forall k p, nth_error done k = Some p ->
         (snd p == lineY st + inject_Z (Z.of_nat k) * lineHeight)%Q) /\
      (lineY st' == lineY st + inject_Z (Z.of_nat (length done)) * lineHeight)%Q.
Proof.
  induction words as [|word words IH]; intros index st Hin H0 Hpos.
  - exists []. simpl. rewrite app_nil_r, string_app_nil_r.
    repeat split; auto.
    + intros [H|H]; [congruence|auto].
    + intros [|k] p H; discriminate.
    + ring.
  - assert (Hword : Good (word ++ " ")%string).
    { left. exists word. split; auto. apply Hin. now left. }
    assert (Hrest : forall w, In w words -> In w allWords).
    { intros w Hw. apply Hin. now right. }
    simpl wrapLoop.
    destruct (negb (Qle_bool (measureText (line st ++ word ++ " ")) maxWidth)
              && Nat.ltb 0 index) eqn:Hbreak.
    + apply andb_true_iff in Hbreak. destruct Hbreak as [_ Hidx].
      apply Nat.ltb_lt in Hidx.
      destruct (IH (S index)
                  {| line := (word ++ " ")%string;
                     lineY := (lineY st + lineHeight)%Q;
                     filled := filled st
                               ++ [FillText (trim (line st)) x (lineY st)] |})
        as [done [H1 [H2 [H3 [H4 [H5 H6]]]]]]; auto; try discriminate.
      exists ((line st, lineY st) :: done). simpl in *.
      rewrite H1, <- app_assoc. repeat split; auto.
      * rewrite string_app_assoc, H2. reflexivity.
      * constructor; auto. apply Hpos. lia.
      * intros [|k] p Hk; simpl in Hk.
        -- injection Hk as <-. simpl. ring.
        -- rewrite (H5 k p Hk), Nat2Z.inj_succ. unfold Z.succ.
           rewrite inject_Z_plus. ring.
      * rewrite H6, Zpos_P_of_succ_nat. unfold Z.succ.
        rewrite inject_Z_plus. ring.
    + assert (Htest : Good (line st ++ word ++ " ")%string).
      { destruct index as [|index].
        - rewrite H0 by reflexivity. exact Hword.
        - simpl in Hbreak. rewrite andb_true_r in Hbreak.
          apply negb_false_iff in Hbreak. right.
          now apply Qle_bool_iff. }
      destruct (IH (S index)
                  {| line := (line st ++ word ++ " ")%string;
                     lineY := lineY st; filled := filled st |})
        as [done [H1 [H2 [H3 [H4 [H5 H6]]]]]]; auto; try discriminate.
      exists done. simpl in *. repeat split; auto.
      rewrite H2. now rewrite !string_app_assoc.
Qed.

End WrapProperties.

Lemma joinSpaces_splitSpaces (text : string) :
  joinSpaces (splitSpaces text) = text.
Proof.
  induction text as [|c rest IH]; [reflexivity|].
  simpl splitSpaces. destruct (Ascii.eqb_spec c " ") as [->|Hc].
  - rewrite joinSpaces_cons by apply splitSpaces_nonempty.
    now rewrite IH.
  - pose proof (splitSpaces_nonempty rest) as Hne.
    destruct (splitSpaces rest) as [|word [|word' words]]; [congruence| |].
    + simpl in *. now rewrite IH.
    + change (joinSpaces (String c word :: word' :: words))
        with (String c (joinSpaces (word :: word' :: words))).
      now rewrite IH.
Qed.

Lemma textsOf_app (a b : list CanvasOp) :
  textsOf (a ++ b) = textsOf a ++ textsOf b.
Proof.
  induction a as [|op a IH]; simpl; [reflexivity|].
  destruct op; simpl; now rewrite IH.
Qed.

Lemma textsOf_fillLines (trim : string -> string) (x : Q)
  (lines : list (string * Q)) :
  textsOf (map (fun p => FillText (trim (fst p)) x (snd p)) lines)
  = map trim (map fst lines).
Proof. induction lines as [|p l IH]; simpl; [reflexivity|now rewrite IH]. Qed.

(** What [wrapText] draws, line by line: the lines before trimming and
    their baselines. *)
Lemma wrapText_lines (measureText : string -> Q) (trim : string -> string)
  (text : string) (x y maxWidth lineHeight : Q) :
  exists lines : list (string * Q),
    wrapText measureText trim text x y maxWidth lineHeight
    = map (fun p => FillText (trim (fst p)) x (snd p)) lines /\
    lines <> [] /\
    flatten (map fst lines) = (text ++ " ")%string /\
    Forall (fitsOrSingle measureText maxWidth (splitSpaces text)) (map fst lines) /\
    (forall k p, nth_error lines k = Some p ->
       (snd p == y + inject_Z (Z.of_nat k) * lineHeight)%Q).
Proof.
  unfold wrapText.
  set (st0 := {| line := ""; lineY := y; filled := [] |}).
  destruct (wrapLoop_lines measureText trim x maxWidth lineHeight
              (splitSpaces text) (splitSpaces text) 0 st0)
    as [done [H1 [H2 [H3 [H4 [H5 H6]]]]]]; auto; try congruence.
  set (st' := wrapLoop measureText trim (splitSpaces text) 0 x maxWidth
                lineHeight st0) in *.
  exists (done ++ [(line st', lineY st')]).
  rewrite H1. simpl filled. simpl in H2, H5, H6.
  repeat split.
  - now rewrite map_app.
  - destruct done; discriminate.
  - rewrite map_app. simpl.
    assert (Hf : forall a b, flatten (a ++ [b]) = (flatten a ++ b)%string).
    { induction a as [|z a IH]; intros b; simpl.
      - apply string_app_nil_r.
      - now rewrite IH, string_app_assoc. }
    rewrite Hf, H2, flatten_spaced_join by apply splitSpaces_nonempty.
    now rewrite joinSpaces_splitSpaces.
  - rewrite map_app. apply Forall_app. split; auto.
    constructor; [|constructor]. apply H4. left. apply splitSpaces_nonempty.
  - intros k p Hk.
    destruct (Nat.lt_ge_cases k (length done)) as [Hlt|Hge].
    + rewrite nth_error_app1 in Hk by auto. now apply H5.
    + rewrite nth_error_app2 in Hk by auto.
      destruct (k - length done)%nat as [|n] eqn:Hn; simpl in Hk.
      * injection Hk as <-. simpl.
        replace k with (length done) by lia. exact H6.
      * destruct n; discriminate.
Qed.

(** The same lines are drawn whatever [trim] does to them. *)
Lemma wrapLoop_trim (measureText : string -> Q) (trim : string -> string)
  (x maxWidth lineHeight : Q) (words : list string) :
  forall (index : nat) (st st0 : WrapState),
    line st = line st0 ->
    textsOf (filled st) = map trim (textsOf (filled st0)) ->
    let s' := wrapLoop measureText trim words index x maxWidth lineHeight st in
    let s0' := wrapLoop measureText (fun s => s) words index x maxWidth
                 lineHeight st0 in
    line s' = line s0' /\
    textsOf (filled s') = map trim (textsOf (filled s0')).
Proof.
  induction words as [|word words IH]; intros index st st0 Hl Hf; simpl.
  - auto.
  - rewrite Hl.
    destruct (negb (Qle_bool (measureText (line st0 ++ word ++ " ")%string)
                      maxWidth)
              && Nat.ltb 0 index); apply IH; simpl; auto.
    rewrite !textsOf_app, map_app, Hf. reflexivity.
Qed.

Lemma wrapText_trim (measureText : string -> Q) (trim : string -> string)
  (text : string) (x y maxWidth lineHeight : Q) :
  textsOf (wrapText measureText trim text x y maxWidth lineHeight)
  = map trim
      (textsOf (wrapText measureText (fun s => s) text x y maxWidth lineHeight)).
Proof.
  unfold wrapText.
  set (st0 := {| line := ""; lineY := y; filled := [] |}).
  destruct (wrapLoop_trim measureText trim x maxWidth lineHeight
              (splitSpaces text) 0 st0 st0 eq_refl eq_refl) as [Hl Hf].
  rewrite !textsOf_app, Hf, Hl, map_app. reflexivity.
Qed.

Lemma wrapText_untrimmed (measureText : string -> Q) (text : string)
  (x y maxWidth lineHeight : Q) :
  exists lines : list (string * Q),
    textsOf (wrapText measureText (fun s => s) text x y maxWidth lineHeight)
    = map fst lines /\
    lines <> [] /\
    flatten (map fst lines) = (text ++ " ")%string /\
    Forall (fitsOrSingle measureText maxWidth (splitSpaces text)) (map fst lines).
Proof.
  destruct (wrapText_lines measureText (fun s => s) text x y maxWidth lineHeight)
    as [lines [H1 [H2 [H3 [H4 _]]]]].
  exists lines. repeat split; auto.
  rewrite H1. clear. induction lines as [|p l IH]; simpl; congruence.
Qed.

(** [wrapText] loses nothing of the text: the lines it draws, before
    trimming and put end to end, are the text followed by one space; what
    reaches [fillText] is each of these lines trimmed, in order. *)
Theorem wrapText_keeps_the_text (measureText : string -> Q)
  (trim : string -> string) (text : string) (x y maxWidth lineHeight : Q) :
  let untrimmed :=
    textsOf (wrapText measureText (fun s => s) text x y maxWidth lineHeight) in
  flatten untrimmed = (text ++ " ")%string /\
  untrimmed <> [] /\
  textsOf (wrapText measureText trim text x y maxWidth lineHeight)
  = map trim untrimmed.
Proof.
  intros untrimmed. subst untrimmed.
  destruct (wrapText_untrimmed measureText text x y maxWidth lineHeight)
    as [lines [H1 [H2 [H3 _]]]].
  rewrite (wrapText_trim measureText trim), H1. repeat split; auto.
  destruct lines; [congruence|simpl; discriminate].
Qed.

(** Every line [wrapText] draws measured at most [maxWidth] (with the space
    after its last word) when it was composed, unless it holds a single
    word of the text. *)
Theorem wrapText_lines_fit (measureText : string -> Q) (text : string)
  (x y maxWidth lineHeight : Q) :
  Forall (fitsOrSingle measureText maxWidth (splitSpaces text))
    (textsOf (wrapText measureText (fun s => s) text x y maxWidth lineHeight)).
Proof.
  destruct (wrapText_untrimmed measureText text x y maxWidth lineHeight)
    as [lines [H1 [_ [_ H4]]]].
  now rewrite H1.
Qed.

(** [wrapText] only calls [fillText], at least once, always at [x], and the
    [k]-th call is on the baseline [y + k * lineHeight]. *)
Theorem wrapText_baselines (measureText : string -> Q)
  (trim : string -> string) (text : string) (x y maxWidth lineHeight : Q) :
  wrapText measureText trim text x y maxWidth lineHeight <> [] /\
  (forall k op,
     nth_error (wrapText measureText trim text x y maxWidth lineHeight) k
     = Some op ->
     exists drawn baseline,
       op = FillText drawn x baseline /\
       (baseline == y + inject_Z (Z.of_nat k) * lineHeight)%Q).
Proof.
  destruct (wrapText_lines measureText trim text x y maxWidth lineHeight)
    as [lines [H1 [H2 [_ [_ H5]]]]].
  rewrite H1. split.
  - destruct lines; [congruence|discriminate].
  - intros k op Hk. rewrite nth_error_map in Hk.
    destruct (nth_error lines k) as [p|] eqn:Hp; [|discriminate].
    injection Hk as <-. eexists. eexists. split; [reflexivity|].
    now apply H5.
Qed.

Lemma wrapText_baselines_witness :
  let ops := wrapText tenPerChar (fun s => s) "aa bb cc" 0 100 60 40 in
  nth_error ops 1 = Some (FillText "cc " 0 (100 + 40)%Q) /\
  exists drawn baseline,
    FillText "cc " 0 (100 + 40)%Q = FillText drawn 0 baseline /\
    (baseline == 100 + inject_Z (Z.of_nat 1) * 40)%Q.
Proof.
  intros ops. split; [reflexivity|].
  apply (proj2 (wrapText_baselines tenPerChar (fun s => s) "aa bb cc"
                  0 100 60 40) 1%nat).
  reflexivity.
Defined.

Lemma clampProgress_range (p : Q) :
  (0 <= clampProgress p /\ clampProgress p <= 1)%Q /\
  ((0 <= p /\ p <= 1)%Q -> (clampProgress p == p)%Q) /\
  ((p <= 0)%Q -> (clampProgress p == 0)%Q) /\
  ((1 <= p)%Q -> (clampProgress p == 1)%Q).
Proof.
  unfold clampProgress.
  destruct (Q.max_spec p 0) as [[H1 H2]|[H1 H2]];
  destruct (Q.min_spec (Qmax p 0) 1) as [[H3 H4]|[H3 H4]];
    rewrite H4; rewrite H2 in *; repeat split; intros; lra.
Qed.

(** Whatever progress it is given, [drawSlide] keeps every rectangle it
    clears or fills inside the 1280 x 720 canvas. *)
Theorem drawSlide_stays_on_canvas (measureText : string -> Q)
  (trim : string -> string) (slide : Slide) (localProgress : Q)
  (x y w h : Q) :
  In (FillRect x y w h) (drawSlide measureText trim slide localProgress)
  \/ In (ClearRect x y w h) (drawSlide measureText trim slide localProgress) ->
  (0 <= x /\ 0 <= y /\ 0 <= w /\ 0 <= h
   /\ x + w <= CANVAS_WIDTH /\ y + h <= CANVAS_HEIGHT)%Q.
Proof.
  destruct (clampProgress_range localProgress) as [[Hc0 Hc1] _].
  unfold drawSlide.
  destruct (wrapText_lines measureText trim (body slide)
              (CANVAS_WIDTH / 2) (CANVAS_HEIGHT / 2 + 30)
              (CANVAS_WIDTH - 120 * 2 - 80) 40) as [lines [Hw _]].
  rewrite Hw. unfold CANVAS_WIDTH, CANVAS_HEIGHT in *.
  intros [Hin|Hin]; rewrite !in_app_iff, in_map_iff in Hin; simpl in Hin;
    repeat match type of Hin with
           | _ \/ _ => destruct Hin as [Hin|Hin]
           | exists _, _ => destruct Hin as [? [Hin _]]
           end;
    try discriminate; try contradiction;
    injection Hin as <- <- <- <-; repeat split; try lra; try nra.
Qed.

Lemma drawSlide_stays_on_canvas_witness :
  let slide := createSlide None 0 in
  In (FillRect 120 (720 - 120 + 40) ((1280 - 120 * 2) * clampProgress 3) 14)
     (drawSlide tenPerChar (fun s => s) slide 3) /\
  ((1280 - 120 * 2) * clampProgress 3 <= 1280 - 120)%Q.
Proof.
  intros slide.
  assert (Hin : In (FillRect 120 (720 - 120 + 40)
                      ((1280 - 120 * 2) * clampProgress 3) 14)
                   (drawSlide tenPerChar (fun s => s) slide 3)).
  { unfold drawSlide. apply in_or_app. right. apply in_or_app. right.
    simpl. auto. }
  split; [exact Hin|].
  destruct (drawSlide_stays_on_canvas _ _ _ _ _ _ _ _ (or_introl Hin))
    as [_ [_ [_ [_ [H _]]]]].
  unfold CANVAS_WIDTH in H. lra.
Defined.

(** The progress bar [drawSlide] fills is the track's 1040 pixels times
    the progress clamped into [0, 1]: never negative, never longer than
    the track, and proportional to the progress inside [0, 1]. *)
Theorem drawSlide_progress_bar (measureText : string -> Q)
  (trim : string -> string) (slide : Slide) (localProgress : Q) :
  exists width,
    In (FillRect 120 (CANVAS_HEIGHT - 120 + 40) width 14)
       (drawSlide measureText trim slide localProgress) /\
    (0 <= width /\ width <= 1040)%Q /\
    ((0 <= localProgress /\ localProgress <= 1)%Q ->
     (width == 1040 * localProgress)%Q) /\
    ((localProgress <= 0)%Q -> (width == 0)%Q) /\
    ((1 <= localProgress)%Q -> (width == 1040)%Q).
Proof.
  exists ((CANVAS_WIDTH - 120 * 2) * clampProgress localProgress)%Q.
  destruct (clampProgress_range localProgress) as [[Hc0 Hc1] [Hin [Hlo Hhi]]].
  unfold CANVAS_WIDTH. split.
  - unfold drawSlide. apply in_or_app. right. apply in_or_app. right.
    simpl. auto.
  - repeat split; try lra; intros H;
      first [rewrite (Hin H) | rewrite (Hlo H) | rewrite (Hhi H)]; lra.
Qed.

Lemma drawSlide_progress_bar_witness :
  exists width,
    In (FillRect 120 (CANVAS_HEIGHT - 120 + 40) width 14)
       (drawSlide tenPerChar (fun s => s) (createSlide None 0) (1 # 2)) /\
    (width == 520)%Q.
Proof.
  destruct (drawSlide_progress_bar tenPerChar (fun s => s)
              (createSlide None 0) (1 # 2))
    as [width [Hin [_ [Hmid _]]]].
  exists width. split; [exact Hin|].
  rewrite Hmid; [reflexivity|]. split; vm_compute; discriminate.
Defined.

(** ** More on the frame mapper *)

Lemma fitsAt_weaken (segs : list TimelineSegment) (c1 c2 : Q) (k : nat) :
  (c1 <= c2)%Q -> fitsAt segs c2 k -> fitsAt segs c1 k.
Proof.
  intros Hle [s [Hs Hfit]]. exists s. split; auto.
  unfold remainingAt in *. lra.
Qed.

(** For a timeline built from slides the segment the mapper stops at always
    fits: its duration is at least the time left there. *)
Lemma mapFrame_first_fit (slides : list Slide) (elapsedMs : Q) :
  slides <> [] ->
  let tl := timeline slides in
  let segs := segments tl in
  let clamped := clampElapsed tl elapsedMs in
  exists k seg r,
    mapFrame tl elapsedMs = Some (k, (r / inject_Z (durationMs seg))%Q) /\
    nth_error segs k = Some seg /\
    1 <= durationMs seg /\
    (r == remainingAt segs clamped k)%Q /\
    (r <= inject_Z (durationMs seg))%Q /\
    (forall j, (j < k)%nat -> ~ fitsAt segs clamped j).
Proof.
  intros Hne tl segs clamped.
  pose proof (timeline_segments_positive slides) as Hpos. fold tl segs in Hpos.
  destruct (timeline_total slides Hne) as [Htot Hge]. fold tl segs in Htot, Hge.
  assert (Hsegs : segs <> []).
  { subst segs tl. simpl. destruct slides; [congruence|discriminate]. }
  destruct (scanTimeline_first_fit tl elapsedMs Hsegs)
    as [seg [H1 [H2 [H3 [H4 H5]]]]].
  fold segs clamped in H1, H3, H4, H5.
  set (s' := scanTimeline tl elapsedMs) in *.
  pose proof (nth_segment_positive _ _ _ Hpos H1) as Hseg.
  exists (activeIndex s'), seg, (remaining s').
  repeat split; auto.
  - unfold mapFrame, progressOf. fold s'. rewrite H2.
    destruct (Z.eqb_spec (durationMs seg) 0); [lia|reflexivity].
  - rewrite H3. destruct H4 as [[s [Hs Hfit]]|Hlast].
    + rewrite H1 in Hs. now injection Hs as <-.
    + destruct (clampElapsed_range tl elapsedMs Hge) as [[_ Hhi] _].
      fold clamped in Hhi.
      assert (Hsum : consumed segs (S (activeIndex s')) = totalDurationMs tl).
      { rewrite Htot, <- consumed_all. f_equal.
        assert (length segs <> 0)%nat by (destruct segs; simpl; congruence).
        lia. }
      rewrite (consumed_S _ _ _ H1) in Hsum.
      unfold remainingAt.
      assert (Hq : (inject_Z (totalDurationMs tl - 1)
                    == inject_Z (consumed segs (activeIndex s'))
                       + inject_Z (durationMs seg) - 1)%Q).
      { rewrite <- Hsum. unfold Z.sub.
        rewrite !inject_Z_plus. reflexivity. }
      lra.
Qed.



Lemma mapFrame_not_after_zero (slides : list Slide) (elapsedMs : Q) :
  slides <> [] ->
  (elapsedMs <= 0)%Q ->
  exists progress,
    mapFrame (timeline slides) elapsedMs = Some (0%nat, progress) /\
    (progress == 0)%Q.
Proof.
  intros Hne Hneg.
  destruct (mapFrame_first_fit slides elapsedMs Hne)
    as [k [seg [r [Hm [Hk [Hd [Hr [Hfit Hfirst]]]]]]]].
  destruct (timeline_total slides Hne) as [_ Hge].
  destruct (clampElapsed_range (timeline slides) elapsedMs Hge)
    as [_ [_ [Hzero _]]].
  specialize (Hzero Hneg).
  set (segs := segments (timeline slides)) in *.
  set (clamped := clampElapsed (timeline slides) elapsedMs) in *.
  assert (Hk0 : k = 0%nat).
  { destruct k as [|j]; auto. exfalso.
    apply (Hfirst 0%nat); [lia|].
    destruct (nth_error segs 0) as [s0|] eqn:H0.
    - exists s0. split; auto.
      pose proof (timeline_segments_positive slides) as Hpos.
      pose proof (nth_segment_positive _ _ _ Hpos H0) as Hs0.
      change (clamped - 0 <= inject_Z (durationMs s0))%Q.
      rewrite Zle_Qle in Hs0. change (inject_Z 1) with 1%Q in Hs0. lra.
    - apply nth_error_None in H0.
      assert (S j < length segs)%nat by (apply nth_error_Some; congruence).
      lia. }
  subst k. eexists. split; [exact Hm|].
  rewrite Hr. change (remainingAt segs clamped 0) with (clamped - 0)%Q.
  rewrite Hzero. unfold Qdiv. ring.
Qed.

(** At elapsed time 0, and at any negative time, the mapper shows the first
    slide at progress 0. *)
Theorem mapFrame_at_the_start (slides : list Slide) (elapsedMs : Q) :
  slides <> [] ->
  (elapsedMs <= 0)%Q ->
  exists progress,
    mapFrame (timeline slides) elapsedMs = Some (0%nat, progress) /\
    (progress == 0)%Q.
Proof. apply mapFrame_not_after_zero. Qed.

Lemma mapFrame_at_the_start_witness :
  let slides := INITIAL_SLIDES None None in
  (slides <> [] /\ (-5 <= 0)%Q) /\
  exists progress,
    mapFrame (timeline slides) (-5) = Some (0%nat, progress) /\
    (progress == 0)%Q.
Proof.
  intros slides.
  assert (Hne : slides <> []) by discriminate.
  assert (Hneg : (-5 <= 0)%Q) by (vm_compute; discriminate).
  split; [split; assumption|].
  exact (mapFrame_at_the_start slides (-5) Hne Hneg).
Defined.

(** The slide shown never goes backwards: a later elapsed time maps to the
    same slide or to a later one. *)
Theorem mapFrame_index_monotone (slides : list Slide) (earlier later : Q) :
  slides <> [] ->
  (earlier <= later)%Q ->
  exists i p j q,
    mapFrame (timeline slides) earlier = Some (i, p) /\
    mapFrame (timeline slides) later = Some (j, q) /\
    (i <= j)%nat.
Proof.
  intros Hne Hle.
  destruct (mapFrame_first_fit slides earlier Hne)
    as [i [si [r1 [Hm1 [Hi [_ [_ [_ Hfirst1]]]]]]]].
  destruct (mapFrame_first_fit slides later Hne)
    as [j [sj [r2 [Hm2 [Hj [_ [Hr2 [Hfit2 _]]]]]]]].
  eexists i, _, j, _. split; [exact Hm1|]. split; [exact Hm2|].
  apply Nat.nlt_ge. intros Hlt.
  apply (Hfirst1 j Hlt).
  apply (fitsAt_weaken _ (clampElapsed (timeline slides) earlier)
           (clampElapsed (timeline slides) later)).
  - unfold clampElapsed. apply Q.max_le_compat_l.
    now apply Q.min_le_compat_r.
  - exists sj. split; auto. now rewrite <- Hr2.
Qed.

Lemma mapFrame_index_monotone_witness :
  let slides := INITIAL_SLIDES None None in
  (slides <> [] /\ (3000 <= 5000)%Q) /\
  exists i p j q,
    mapFrame (timeline slides) 3000 = Some (i, p) /\
    mapFrame (timeline slides) 5000 = Some (j, q) /\
    (i <= j)%nat.
Proof.
  intros slides.
  assert (Hne : slides <> []) by discriminate.
  assert (Hle : (3000 <= 5000)%Q) by (vm_compute; discriminate).
  split; [split; assumption|].
  exact (mapFrame_index_monotone slides 3000 5000 Hne Hle).
Defined.

(** Every elapsed time at or past [totalDurationMs - 1] shows the same
    frame as [totalDurationMs - 1] itself. *)
Theorem mapFrame_past_the_end (slides : list Slide) (elapsedMs : Q) :
  slides <> [] ->
  (inject_Z (totalDurationMs (timeline slides) - 1) <= elapsedMs)%Q ->
  exists index p q,
    mapFrame (timeline slides) elapsedMs = Some (index, p) /\
    mapFrame (timeline slides)
      (inject_Z (totalDurationMs (timeline slides) - 1)) = Some (index, q) /\
    (p == q)%Q.
Proof.
  intros Hne Hpast.
  set (tl := timeline slides) in *.
  set (final := inject_Z (totalDurationMs tl - 1)) in *.
  destruct (mapFrame_first_fit slides elapsedMs Hne)
    as [i [si [r1 [Hm1 [Hi [_ [Hr1 [Hfit1 Hfirst1]]]]]]]].
  destruct (mapFrame_first_fit slides final Hne)
    as [j [sj [r2 [Hm2 [Hj [_ [Hr2 [Hfit2 Hfirst2]]]]]]]].
  fold tl in Hm1, Hi, Hr1, Hfirst1, Hm2, Hj, Hr2, Hfirst2.
  destruct (timeline_total slides Hne) as [_ Hge]. fold tl in Hge.
  assert (Hc1 : (clampElapsed tl elapsedMs == final)%Q)
    by (now apply (clampElapsed_range tl elapsedMs Hge)).
  assert (Hc2 : (clampElapsed tl final == final)%Q)
    by (apply (clampElapsed_range tl final Hge); apply Qle_refl).
  assert (Hij : i = j).
  { destruct (Nat.lt_trichotomy i j) as [Hlt|[Heq|Hgt]]; auto; exfalso.
    - apply (Hfirst2 i Hlt).
      apply (fitsAt_weaken _ _ (clampElapsed tl elapsedMs)); [lra|].
      exists si. split; auto. now rewrite <- Hr1.
    - apply (Hfirst1 j Hgt).
      apply (fitsAt_weaken _ _ (clampElapsed tl final)); [lra|].
      exists sj. split; auto. now rewrite <- Hr2. }
  subst j. rewrite Hi in Hj. injection Hj as <-.
  eexists i, _, _. split; [exact Hm1|]. split; [exact Hm2|].
  rewrite Hr1, Hr2. unfold remainingAt. now rewrite Hc1, Hc2.
Qed.

Lemma mapFrame_past_the_end_witness :
  let slides := INITIAL_SLIDES None None in
  (slides <> [] /\
   (inject_Z (totalDurationMs (timeline slides) - 1) <= 12000)%Q) /\
  exists index p q,
    mapFrame (timeline slides) 12000 = Some (index, p) /\
    mapFrame (timeline slides)
      (inject_Z (totalDurationMs (timeline slides) - 1)) = Some (index, q) /\
    (p == q)%Q.
Proof.
  intros slides.
  assert (Hne : slides <> []) by discriminate.
  assert (Hle : (inject_Z (totalDurationMs (timeline slides) - 1) <= 12000)%Q)
    by (vm_compute; discriminate).
  split; [split; assumption|].
  exact (mapFrame_past_the_end slides 12000 Hne Hle).
Defined.

Lemma Math_round_at_least (x : Q) (z : Z) :
  (inject_Z z <= x)%Q -> z <= Math_round x.
Proof.
  intros H. unfold Math_round.
  rewrite <- (Qfloor_Z z). apply Qfloor_resp_le. lra.
Qed.



(** ** Durations set through the editor *)

Lemma durationInput_at_least_one (value : option Q) :
  (1 <= durationInput value)%Q.
Proof. unfold durationInput. apply Q.le_max_l. Qed.

Lemma applyEdit_durations (prev : list Slide) (e : Edit) :
  editorEdit e ->
  Forall (fun slide => 1 <= duration slide)%Q prev ->
  Forall (fun slide => 1 <= duration slide)%Q (applyEdit prev e).
Proof.
  intros He Hprev. destruct e as [uuid|i patch|i|i up]; simpl.
  - unfold addSlide. apply Forall_app. split; auto.
    constructor; [|constructor]. simpl. vm_compute. discriminate.
  - unfold updateSlide. rewrite Forall_map.
    eapply Forall_impl; [|exact Hprev]. intros slide Hs.
    destruct (String.eqb (id slide) i); auto.
    simpl in He. destruct He; simpl; auto.
    apply durationInput_at_least_one.
  - unfold removeSlide. destruct (Nat.leb (length prev) 1); auto.
    rewrite Forall_forall in *. intros slide Hin.
    apply Hprev. now apply filter_In in Hin.
  - eapply Permutation_Forall; [|exact Hprev].
    apply moveSlide_permutation.
Qed.

(** Whatever the editor's buttons and fields do, starting from the two
    initial slides, every slide lasts at least one second, so every segment
    of the timeline lasts at least 1000 ms. *)
Theorem editor_slides_last_a_second (uuid0 uuid1 : option string)
  (edits : list Edit) :
  Forall editorEdit edits ->
  let slides := applyEdits edits (INITIAL_SLIDES uuid0 uuid1) in
  Forall (fun slide => 1 <= duration slide)%Q slides /\
  Forall (fun segment => 1000 <= durationMs segment)
    (segments (timeline slides)).
Proof.
  intros Hedits slides.
  assert (Hdur : Forall (fun slide => 1 <= duration slide)%Q slides).
  { subst slides. unfold applyEdits.
    assert (Hstart : Forall (fun slide => 1 <= duration slide)%Q
                       (INITIAL_SLIDES uuid0 uuid1)).
    { repeat constructor; vm_compute; discriminate. }
    revert Hstart. generalize (INITIAL_SLIDES uuid0 uuid1).
    induction Hedits as [|e edits He _ IH]; intros start Hstart; simpl; auto.
    apply IH. now apply applyEdit_durations. }
  split; [exact Hdur|].
  simpl. rewrite Forall_map.
  eapply Forall_impl; [|exact Hdur]. intros slide Hs. cbv beta in Hs. simpl.
  assert (1000 <= Math_round (duration slide * 1000)).
  { apply Math_round_at_least. change (inject_Z 1000) with 1000%Q. lra. }
  lia.
Qed.

Lemma editor_slides_last_a_second_witness :
  let edits := [UpdateSlide "slide-0"
                  (mkPatch None None None None (Some (durationInput (Some 0%Q))));
                AddSlide None; MoveSlide "slide-2" true] in
  Forall editorEdit edits /\
  Forall (fun segment => 1000 <= durationMs segment)
    (segments (timeline (applyEdits edits (INITIAL_SLIDES None None)))).
Proof.
  intros edits.
  assert (He : Forall editorEdit edits).
  { repeat constructor. }
  split; [exact He|].
  exact (proj2 (editor_slides_last_a_second None None edits He)).
Defined.

(** ** The runtime shown and the timeline *)






(** ** One scheduling chain *)

Ltac unfold_ops :=
  unfold exec, perform, runTimeline, stopPlayback, renderVideo, fireFrame,
    runTick, tick, captureTick, ondataavailable, onstop, resetRecording,
    effectCleanup, revokeObjectURL, recorderStop, recorderStart,
    newMediaRecorder, captureStream, stopTracks, cancelCurrentFrame,
    cancelAnimationFrame, requestAnimationFrame, truthyHandle, emit, tryCatch,
    bind, get, modify, ret, throw.

Ltac reduce_world :=
  cbn -[drawFrame selectMimeType recorderOptions stopAt setRecState timeline
        Qle_bool Qminus inject_Z Nat.eqb nth_error filter fold_left].

Ltac split_cases :=
  repeat (reduce_world;
          match goal with
          | |- context [drawFrame ?s ?e ?w] =>
              let events := fresh "events" in
              rewrite (drawFrame_returns s e w);
              destruct (drawFrame_frame s e w) as [events [-> _]]
          | |- context [match ?x with _ => _ end] =>
              lazymatch x with
              | context [drawFrame] => fail
              | context [match _ with _ => _ end] => fail
              | _ => destruct x eqn:?
              end
          end).

Lemma singleChain_scheduled (w : World) (c : Tick) :
  (0 < nextHandle w)%nat ->
  pending w = [] ->
  singleChain
    (set_animationRef (Some (nextHandle w))
       (set_nextHandle (S (nextHandle w))
          (set_pending (pending w ++ [(nextHandle w, c)]) w))).
Proof.
  intros Hn Hp. split; simpl; [lia|]. right.
  exists (nextHandle w), c. rewrite Hp. repeat split; auto; lia.
Qed.

Lemma single_chain_invariant (api : option MediaRecorderClass) (a : Action)
  (w : World) :
  singleChain w -> singleChain (exec (perform api a) w).
Proof.
  intros [Hn Hp].
  destruct w as [s ip ir sm ru cr ar pr rr rc pe nh st re ou nu tr].
  simpl in Hn, Hp.
  assert (Hcases : pe = [] \/
                   exists h c, pe = [(S h, c)] /\ ar = Some (S h)
                               /\ (S h < nh)%nat).
  { destruct Hp as [Hp|[h [c [H1 [H2 [H3 H4]]]]]]; [now left|right].
    destruct h as [|h]; [lia|]. exists h, c. auto. }
  clear Hp.
  destruct a; unfold_ops;
    destruct Hcases as [->|[h0 [c0 [-> [-> Hh]]]]];
    split_cases;
    repeat match goal with
           | H : Nat.eqb _ _ = true |- _ => apply Nat.eqb_eq in H; subst
           end;
    unfold singleChain; reduce_world;
    simpl; rewrite ?Nat.eqb_refl; simpl;
    try (split; [lia|]);
    try (left; reflexivity);
    try (right; eexists; eexists; repeat split; try reflexivity; lia).
Qed.

(** From the moment the component mounts, whatever handlers are called and
    whatever frames and recorder events the browser fires, at most one
    animation frame is pending at any time, and it is the one
    [animationRef] names. *)
Theorem at_most_one_pending_frame (api : option MediaRecorderClass)
  (canvas : option Canvas) (initial : list Slide) (actions : list Action) :
  let w := performAll api actions (initialWorld canvas initial) in
  singleChain w /\ (length (pending w) <= 1)%nat.
Proof.
  intros w.
  assert (H : singleChain w).
  { subst w. unfold performAll.
    assert (H0 : singleChain (initialWorld canvas initial)).
    { split; simpl; [lia|now left]. }
    revert H0. generalize (initialWorld canvas initial).
    induction actions as [|a actions IH]; intros w0 H0; simpl; auto.
    apply IH. now apply single_chain_invariant. }
  split; [exact H|].
  destruct H as [_ [->|[h [c [-> _]]]]]; simpl; lia.
Qed.

(** ** Starting playback and capture *)

(** The first frame: [drawFrame(0)] paints the first slide at progress 0
    when the canvas has a 2d context, and nothing otherwise. *)
Lemma drawFrame_first_frame (slides : list Slide) (w : World) (canvas : Canvas) :
  slides <> [] ->
  canvasRef w = Some canvas ->
  exists events,
    drawFrame slides 0 w = Returned tt (set_trace (trace w ++ events) w) /\
    (context2d canvas = true ->
     exists progress,
       events = [DrawSlide (nth_error slides 0) 0 progress] /\
       (progress == 0)%Q) /\
    (context2d canvas = false -> events = []).
Proof.
  intros Hne Hc.
  destruct (drawFrame_outcome slides 0 w)
    as [[H [Hn|[[cv [Hcv Hctx]]|Hs]]]|[cv [i [p [Hcv [Hctx [_ [Hm H]]]]]]]];
    try congruence.
  - exists []. rewrite app_nil_r. split; [|split].
    + rewrite H. now destruct w.
    + intros Ht. rewrite Hc in Hcv. injection Hcv as <-. congruence.
    + reflexivity.
  - rewrite Hc in Hcv. injection Hcv as <-.
    destruct (mapFrame_not_after_zero slides 0 Hne (Qle_refl 0)) as [p0 [Hm0 Hp0]].
    rewrite Hm0 in Hm. injection Hm as <- <-.
    eexists. split; [exact H|]. split; [|congruence].
    intros _. exists p0. auto.
Qed.

(** [runTimeline] on a non-empty slide list replaces whatever frame was
    pending by its own first step, sets both playing flags and paints the
    first slide at progress 0. *)
Theorem runTimeline_starts_playback (loop : bool) (onComplete : option nat)
  (now : Q) (w : World) (canvas : Canvas) :
  slides w <> [] ->
  canvasRef w = Some canvas ->
  singleChain w ->
  let w' := exec (runTimeline loop onComplete now) w in
  runTimeline loop onComplete now w = Returned tt w' /\
  playingRef w' = true /\ isPlaying w' = true /\
  pending w'
  = [(nextHandle w,
      {| t_slides := slides w; t_kind := PlaybackTick loop onComplete;
         t_start := now |})] /\
  animationRef w' = Some (nextHandle w) /\
  (context2d canvas = true ->
   exists progress,
     trace w' = trace w ++ [DrawSlide (nth_error (slides w) 0) 0 progress] /\
     (progress == 0)%Q).
Proof.
  intros Hne Hcanvas [Hn Hp] w'. subst w'.
  destruct w as [s ip ir sm ru cr ar pr rr rc pe nh st re ou nu tr].
  simpl in Hne, Hcanvas, Hn, Hp. subst cr.
  destruct s as [|slide s]; [congruence|].
  assert (Hcases : pe = [] \/
                   exists h c, pe = [(S h, c)] /\ ar = Some (S h)).
  { destruct Hp as [Hp|[h [c [H1 [H2 [H3 H4]]]]]]; [now left|right].
    destruct h as [|h]; [lia|]. exists h, c. auto. }
  clear Hp.
  unfold exec, runTimeline, cancelCurrentFrame, cancelAnimationFrame,
    requestAnimationFrame, truthyHandle, bind, get, modify, ret.
  cbn -[drawFrame].
  destruct Hcases as [->|[h0 [c0 [-> ->]]]].
  - destruct ar as [[|h]|]; cbn -[drawFrame];
      match goal with
      | |- context [drawFrame ?sl 0 ?x] =>
          destruct (drawFrame_first_frame sl x canvas Hne eq_refl)
            as [events [-> [Hev _]]]
      end; cbn; repeat split; auto;
      intros Hctx; destruct (Hev Hctx) as [p [-> Hp]]; exists p; auto.
  - cbn -[drawFrame]. rewrite Nat.eqb_refl. cbn -[drawFrame].
    match goal with
    | |- context [drawFrame ?sl 0 ?x] =>
        destruct (drawFrame_first_frame sl x canvas Hne eq_refl)
          as [events [-> [Hev _]]]
    end; cbn; repeat split; auto;
    intros Hctx; destruct (Hev Hctx) as [p [-> Hp]]; exists p; auto.
Qed.

Lemma runTimeline_starts_playback_witness :
  let w := exec (playPreview 0)
             (initialWorld (Some readyCanvas) (INITIAL_SLIDES None None)) in
  let w' := exec (runTimeline false (Some 3%nat) 500) w in
  (slides w <> [] /\ canvasRef w = Some readyCanvas /\ singleChain w) /\
  map fst (pending w) = [1%nat] /\ map fst (pending w') = [2%nat].
Proof.
  intros w w'.
  assert (Hne : slides w <> []) by discriminate.
  assert (Hs : singleChain w).
  { unfold singleChain. split; [vm_compute; lia|]. right.
    exists 1%nat. eexists. repeat split; try reflexivity; vm_compute; lia. }
  split; [split; [exact Hne|split; [reflexivity|exact Hs]]|].
  split; [reflexivity|].
  destruct (runTimeline_starts_playback false (Some 3%nat) 500 w readyCanvas
              Hne eq_refl Hs) as [_ [_ [_ [Hp _]]]].
  fold w' in Hp. rewrite Hp. reflexivity.
Defined.

(** With a ready canvas, a constructor that accepts the selected format and
    a recorder that starts, [renderVideo] leaves a capture running: a new
    live stream, one new recorder recording it with the selected format,
    the chunk buffer emptied, the three flags set, the status "Rendering
    video...", the first slide painted at progress 0 and exactly one step
    pending, that of the capture. *)
Theorem renderVideo_starts_capture (cls : MediaRecorderClass) (now : Q)
  (w : World) (canvas : Canvas) :
  slides w <> [] ->
  isRecording w = false ->
  canvasRef w = Some canvas ->
  constructs cls (selectMimeType (Some cls)) = true ->
  starts cls = true ->
  singleChain w ->
  let w' := exec (renderVideo (Some cls) now) w in
  let r := length (recorders w) in
  renderVideo (Some cls) now w = Returned tt w' /\
  (isRecording w' = true /\ isPlaying w' = true /\ playingRef w' = true) /\
  statusMessage w' = Some "Rendering video..."%string /\
  recordedChunksRef w' = [] /\
  streams w' = streams w ++ [repeat Live (captureTracks canvas)] /\
  recorderRef w' = Some r /\
  recorders w'
  = recorders w ++
    [{| rec_stream := length (streams w);
        rec_options := selectMimeType (Some cls);
        rec_mimeType := selectMimeType (Some cls);
        rec_state := Recording;
        rec_closureUrl := recordedUrl w |}] /\
  pending w'
  = [(nextHandle w,
      {| t_slides := slides w; t_kind := CaptureTick r; t_start := now |})] /\
  (context2d canvas = true ->
   exists progress,
     trace w' = trace w ++ [DrawSlide (nth_error (slides w) 0) 0 progress] /\
     (progress == 0)%Q).
Proof.
  intros Hne Hrec Hcanvas Hok Hstart [Hn Hp] w' r. subst w' r.
  destruct w as [s ip ir sm ru cr ar pr rr rc pe nh st re ou nu tr].
  simpl in Hne, Hrec, Hcanvas, Hn, Hp. subst ir cr.
  destruct s as [|slide s]; [congruence|].
  assert (Hcases : pe = [] \/
                   exists h c, pe = [(S h, c)] /\ ar = Some (S h)).
  { destruct Hp as [Hp|[h [c [H1 [H2 [H3 H4]]]]]]; [now left|right].
    destruct h as [|h]; [lia|]. exists h, c. auto. }
  clear Hp.
  unfold exec, renderVideo, bind, get, tryCatch, newMediaRecorder,
    recorderStart, captureStream, cancelCurrentFrame, cancelAnimationFrame,
    stopTracks, requestAnimationFrame, truthyHandle, modify, ret, throw.
  cbn -[selectMimeType recorderOptions drawFrame stopAt setRecState].
  rewrite recorderOptions_selected, Hok, Hstart.
  assert (Hfinish :
    forall x : World,
      canvasRef x = Some canvas ->
      exists events,
        drawFrame (slide :: s) 0 x = Returned tt (set_trace (trace x ++ events) x) /\
        (context2d canvas = true ->
         exists progress,
           events = [DrawSlide (nth_error (slide :: s) 0) 0 progress] /\
           (progress == 0)%Q)).
  { intros x Hx.
    destruct (drawFrame_first_frame (slide :: s) x canvas Hne Hx)
      as [events [H1 [H2 _]]].
    now exists events. }
  destruct Hcases as [->|[h0 [c0 [-> ->]]]];
    [destruct ar as [[|h]|]|];
    cbn -[selectMimeType recorderOptions drawFrame stopAt setRecState];
    rewrite ?Nat.eqb_refl;
    cbn -[selectMimeType recorderOptions drawFrame stopAt setRecState];
    match goal with
    | |- context [drawFrame (slide :: s) 0 ?x] =>
        destruct (Hfinish x eq_refl) as [events [-> Hev]]
    end;
    cbn -[selectMimeType recorderOptions stopAt setRecState];
    rewrite setRecState_last;
    repeat split; auto;
    intros Hctx; destruct (Hev Hctx) as [p [-> Hq]]; exists p; auto.
Qed.

Lemma renderVideo_starts_capture_witness :
  let w := initialWorld (Some readyCanvas) (INITIAL_SLIDES None None) in
  let w' := exec (renderVideo (Some vp8Host) 0) w in
  (slides w <> [] /\ isRecording w = false /\ canvasRef w = Some readyCanvas
   /\ constructs vp8Host (selectMimeType (Some vp8Host)) = true
   /\ starts vp8Host = true /\ singleChain w) /\
  isRecording w' = true /\
  map rec_mimeType (recorders w') = [Some "video/webm;codecs=vp8"%string].
Proof.
  intros w w'.
  assert (Hne : slides w <> []) by discriminate.
  assert (Hs : singleChain w).
  { unfold singleChain. split; [vm_compute; lia|now left]. }
  split; [repeat split; auto; exact Hs|].
  destruct (renderVideo_starts_capture vp8Host 0 w readyCanvas
              Hne eq_refl eq_refl eq_refl eq_refl Hs)
    as [_ [[Hr _] [_ [_ [_ [_ [Hrec _]]]]]]].
  fold w' in Hr, Hrec. split; [exact Hr|]. rewrite Hrec. reflexivity.
Defined.

(** When the recorder is constructed but [recorder.start] throws, the catch
    block cleans up as for a failed construction: every track of the
    captured stream stopped, the three flags false, the failure in the
    status message, nothing painted or scheduled.  The recorder that never
    started stays behind, inactive, in [recorderRef]. *)
Theorem start_failure_cleans_up (cls : MediaRecorderClass) (now : Q)
  (w : World) (canvas : Canvas) :
  slides w <> [] ->
  isRecording w = false ->
  canvasRef w = Some canvas ->
  constructs cls (selectMimeType (Some cls)) = true ->
  starts cls = false ->
  let w' := exec (renderVideo (Some cls) now) w in
  renderVideo (Some cls) now w = Returned tt w' /\
  streams w' = streams w ++ [repeat Ended (captureTracks canvas)] /\
  (playingRef w' = false /\ isPlaying w' = false /\ isRecording w' = false) /\
  statusMessage w'
  = Some "MediaRecorder is not supported in this browser."%string /\
  recorderRef w' = Some (length (recorders w)) /\
  map rec_state (recorders w') = map rec_state (recorders w) ++ [Inactive] /\
  recordedUrl w' = recordedUrl w /\ objectURLs w' = objectURLs w /\
  trace w' = trace w /\
  (forall e, In e (pending w') -> In e (pending w)).
Proof.
  intros Hne Hrec Hcanvas Hok Hstart w'. subst w'.
  destruct w as [s ip ir sm ru cr ar pr rr rc pe nh st re ou nu tr].
  simpl in Hne, Hrec, Hcanvas. subst ir cr.
  destruct s as [|slide s]; [congruence|].
  unfold exec, renderVideo, bind, get, tryCatch, newMediaRecorder,
    recorderStart, captureStream, cancelCurrentFrame, cancelAnimationFrame,
    stopTracks, requestAnimationFrame, truthyHandle, modify, ret, throw.
  cbn -[selectMimeType recorderOptions drawFrame stopAt setRecState].
  rewrite recorderOptions_selected, Hok, Hstart.
  destruct ar as [[|h]|];
    cbn -[selectMimeType recorderOptions drawFrame stopAt setRecState];
    rewrite stopAt_last, map_repeat, map_app;
    repeat split; auto; intros e; apply filter_subset.
Qed.

Lemma start_failure_cleans_up_witness :
  let host := {| isTypeSupported := fun _ => Some true;
                 constructs := fun _ => true; starts := false |} in
  let w := initialWorld (Some readyCanvas) (INITIAL_SLIDES None None) in
  let w' := exec (renderVideo (Some host) 0) w in
  (slides w <> [] /\ isRecording w = false /\ canvasRef w = Some readyCanvas
   /\ constructs host (selectMimeType (Some host)) = true
   /\ starts host = false) /\
  streams w' = [[Ended]] /\ isRecording w' = false.
Proof.
  intros host w w'.
  assert (Hne : slides w <> []) by discriminate.
  split; [repeat split; auto|].
  destruct (start_failure_cleans_up host 0 w readyCanvas
              Hne eq_refl eq_refl eq_refl eq_refl)
    as [_ [Hs [[_ [_ Hr]] _]]].
  split; [exact Hs|exact Hr].
Defined.

(** Without a canvas [renderVideo] only reports it: the status message
    becomes "Canvas preview is not ready." and nothing else changes. *)
Theorem renderVideo_without_canvas (api : option MediaRecorderClass) (now : Q)
  (w : World) :
  slides w <> [] ->
  isRecording w = false ->
  canvasRef w = None ->
  renderVideo api now w
  = Returned tt
      (setStatusMessage (Some "Canvas preview is not ready."%string) w).
Proof.
  intros Hne Hrec Hcanvas.
  unfold renderVideo, bind, get, modify.
  now rewrite (length_zero_eqb _ Hne), Hrec, Hcanvas.
Qed.

Lemma renderVideo_without_canvas_witness :
  let w := initialWorld None (INITIAL_SLIDES None None) in
  (slides w <> [] /\ isRecording w = false /\ canvasRef w = None) /\
  statusMessage (exec (renderVideo (Some vp8Host) 0) w)
  = Some "Canvas preview is not ready."%string.
Proof.
  intros w.
  assert (Hne : slides w <> []) by discriminate.
  split; [repeat split; auto|].
  unfold exec.
  now rewrite (renderVideo_without_canvas (Some vp8Host) 0 w Hne eq_refl eq_refl).
Defined.

(** ** The step of a capture *)

Lemma setRecState_nth (rs : list MediaRecorder) (r : nat) (s : RecordingState)
  (x : MediaRecorder) :
  nth_error rs r = Some x ->
  nth_error (setRecState r s rs) r
  = Some {| rec_stream := rec_stream x; rec_options := rec_options x;
            rec_mimeType := rec_mimeType x; rec_state := s;
            rec_closureUrl := rec_closureUrl x |}.
Proof.
  revert r. induction rs as [|y rs IH]; intros [|r] H; simpl in *;
    try discriminate.
  - now injection H as ->.
  - now apply IH.
Qed.

(** A live step of the capture's loop, with [elapsed = now - start]: before
    the end it draws the frame at [elapsed] and schedules itself again; at
    or past [totalDurationMs] it draws the frame at [totalDurationMs - 1],
    clears [playingRef] and [isPlaying], schedules nothing and stops the
    recorder, which becomes inactive. *)
Theorem capture_step (c : Tick) (r : nat) (x : MediaRecorder) (now : Q)
  (w : World) :
  playingRef w = true ->
  nth_error (recorders w) r = Some x ->
  rec_state x = Recording ->
  let total := totalDurationMs (timeline (t_slides c)) in
  let elapsed := (now - t_start c)%Q in
  let final := exec (drawFrame (t_slides c) (inject_Z (total - 1))) w in
  let current := exec (drawFrame (t_slides c) elapsed) w in
  ((inject_Z total <= elapsed)%Q ->
   let w' := exec (captureTick c r now) w in
   captureTick c r now w = Returned tt w' /\
   w' = set_recorders (setRecState r Inactive (recorders w))
          (setIsPlaying false (set_playingRef false final)) /\
   pending w' = pending w /\
   option_map rec_state (nth_error (recorders w') r) = Some Inactive) /\
  ((elapsed < inject_Z total)%Q ->
   captureTick c r now w
   = Returned tt
       (set_animationRef (Some (nextHandle current))
          (set_nextHandle (S (nextHandle current))
             (set_pending (pending current ++ [(nextHandle current, c)])
                current)))).
Proof.
  intros Hlive Hr Hstate total elapsed final current.
  destruct (drawFrame_frame (t_slides c) (inject_Z (total - 1)) w)
    as [events [Hfinal _]].
  fold final in Hfinal.
  split.
  - intros Hover w'. apply Qle_bool_iff in Hover.
    assert (Hrun : captureTick c r now w
                   = Returned tt
                       (set_recorders (setRecState r Inactive (recorders w))
                          (setIsPlaying false (set_playingRef false final)))).
    { unfold captureTick, recorderStop, bind, get, modify.
      rewrite Hlive. cbn [negb]. cbv beta iota zeta.
      fold total elapsed. rewrite Hover, drawFrame_returns. fold final.
      rewrite Hfinal. simpl. rewrite Hr, Hstate. reflexivity. }
    subst w'. unfold exec. rewrite Hrun. repeat split.
    + rewrite Hfinal. reflexivity.
    + simpl. now rewrite (setRecState_nth _ _ _ _ Hr).
  - intros Hunder. apply Qle_bool_false_lt in Hunder.
    unfold captureTick, bind, get. rewrite Hlive. cbn [negb].
    cbv beta iota zeta. fold total elapsed.
    rewrite Hunder, drawFrame_returns. reflexivity.
Qed.

Lemma capture_step_witness :
  let w := exec (renderVideo (Some vp8Host) 0)
             (initialWorld (Some readyCanvas) (INITIAL_SLIDES None None)) in
  let c := {| t_slides := slides w; t_kind := CaptureTick 0; t_start := 0 |} in
  let x := {| rec_stream := 0%nat;
              rec_options := Some "video/webm;codecs=vp8"%string;
              rec_mimeType := Some "video/webm;codecs=vp8"%string;
              rec_state := Recording; rec_closureUrl := None |} in
  (playingRef w = true /\ nth_error (recorders w) 0 = Some x
   /\ rec_state x = Recording
   /\ (inject_Z (totalDurationMs (timeline (t_slides c))) <= 8000 - 0)%Q) /\
  option_map rec_state
    (nth_error (recorders (exec (captureTick c 0 8000) w)) 0) = Some Inactive.
Proof.
  intros w c x.
  assert (Hover : (inject_Z (totalDurationMs (timeline (t_slides c)))
                   <= 8000 - 0)%Q) by (vm_compute; discriminate).
  split; [repeat split; auto|].
  destruct (capture_step c 0%nat x 8000 w eq_refl eq_refl eq_refl) as [H _].
  destruct (H Hover) as [_ [_ [_ Hstate]]].
  exact Hstate.
Defined.

(** ** Fragments and the finished recording *)

Lemma stopAt_nth (ss : list MediaStream) (sid : nat) (tracks : MediaStream) :
  nth_error ss sid = Some tracks ->
  nth_error (stopAt sid ss) sid = Some (map (fun _ => Ended) tracks).
Proof.
  revert sid. induction ss as [|s ss IH]; intros [|sid] H; simpl in *;
    try discriminate.
  - now injection H as ->.
  - now apply IH.
Qed.

Lemma fold_left_sizes (chunks : list Blob) (n : nat) :
  fold_left (fun n b => (n + blob_size b)%nat) chunks n
  = (n + list_sum (map blob_size chunks))%nat.
Proof.
  revert n. induction chunks as [|b l IH]; intros n; simpl.
  - lia.
  - rewrite IH. lia.
Qed.

Lemma deliver_appends (events : list (option Blob)) (w : World) :
  deliver events w
  = Returned tt
      (set_recordedChunksRef (recordedChunksRef w ++ retained events) w).
Proof.
  revert w. induction events as [|data events IH]; intros w.
  - simpl. rewrite app_nil_r. now destruct w.
  - simpl deliver. unfold bind, ondataavailable.
    destruct data as [blob|]; simpl retained.
    + destruct (Nat.ltb 0 (blob_size blob)); unfold modify, ret.
      * rewrite IH. simpl. now rewrite <- app_assoc.
      * rewrite IH. reflexivity.
    + unfold ret. rewrite IH. reflexivity.
Qed.

(** The chunk buffer after a run of data events is what it was followed by
    the fragments that were present and not empty, in the order they
    arrived; nothing else changes. *)
Theorem fragments_are_kept_in_order (events : list (option Blob)) (w : World) :
  deliver events w
  = Returned tt
      (set_recordedChunksRef (recordedChunksRef w ++ retained events) w).
Proof. apply deliver_appends. Qed.

(** When the recorder stops after a run of data events, the recording put
    under a fresh object URL has the size of all the fragments kept, and
    the recorder's format or "video/webm" as its type; the URL the handler
    captured is revoked, [recordedUrl] names the new one, [isRecording] is
    false, the status says so and every track of the recorder's stream is
    stopped. *)
Theorem stop_assembles_the_recording (events : list (option Blob)) (r : nat)
  (x : MediaRecorder) (tracks : MediaStream) (w : World) :
  nth_error (recorders w) r = Some x ->
  nth_error (streams w) (rec_stream x) = Some tracks ->
  let w' := exec (deliver events ;; onstop r) w in
  let chunks := recordedChunksRef w ++ retained events in
  let blob := {| blob_size := list_sum (map blob_size chunks);
                 blob_type := match rec_mimeType x with
                              | Some m => m
                              | None => "video/webm"%string
                              end |} in
  (deliver events ;; onstop r) w = Returned tt w' /\
  recordedUrl w' = Some (nextUrl w) /\
  objectURLs w'
  = filter (fun e => match rec_closureUrl x with
                     | Some old => negb (Nat.eqb (fst e) old)
                     | None => true
                     end) (objectURLs w)
    ++ [(nextUrl w, blob)] /\
  recordedChunksRef w' = chunks /\
  isRecording w' = false /\
  statusMessage w'
  = Some "Video rendering complete. Ready for download."%string /\
  nth_error (streams w') (rec_stream x) = Some (map (fun _ => Ended) tracks).
Proof.
  intros Hr Hs w' chunks blob. subst w' chunks blob.
  unfold exec, bind. rewrite deliver_appends.
  unfold onstop, bind, get, modify, stopTracks, ret.
  cbn -[stopAt filter fold_left]. rewrite Hr.
  rewrite fold_left_sizes. simpl Nat.add.
  assert (Hf : filter (fun _ : nat * Blob => true) (objectURLs w) = objectURLs w).
  { induction (objectURLs w) as [|e l IH]; simpl; congruence. }
  destruct (rec_closureUrl x) as [old|];
    cbn -[stopAt filter]; rewrite ?Hf; repeat split;
    now apply stopAt_nth.
Qed.

Lemma stop_assembles_the_recording_witness :
  let w := exec (renderVideo (Some vp8Host) 0)
             (initialWorld (Some readyCanvas) (INITIAL_SLIDES None None)) in
  let events := [Some {| blob_size := 7; blob_type := "" |}; None;
                 Some {| blob_size := 0; blob_type := "" |};
                 Some {| blob_size := 5; blob_type := "" |}] in
  let w' := exec (deliver events ;; onstop 0) w in
  (exists x, nth_error (recorders w) 0 = Some x /\
             nth_error (streams w) (rec_stream x) = Some [Live]) /\
  map snd (objectURLs w')
  = [{| blob_size := 12; blob_type := "video/webm;codecs=vp8" |}] /\
  streams w' = [[Ended]].
Proof.
  intros w events w'.
  split; [eexists; split; reflexivity|].
  destruct (stop_assembles_the_recording events 0%nat _ [Live] w
              eq_refl eq_refl) as [_ [_ [Hu _]]].
  fold w' in Hu. rewrite Hu. split; reflexivity.
Defined.

(** [resetRecording] revokes the recorded URL and forgets it: afterwards
    [recordedUrl] is empty, that URL is no longer live, every other object
    URL is as it was, and a second reset changes nothing. *)
Theorem resetRecording_revokes (w : World) :
  let w' := exec resetRecording w in
  resetRecording w = Returned tt w' /\
  recordedUrl w' = None /\
  (forall e, In e (objectURLs w')
             <-> In e (objectURLs w) /\ recordedUrl w <> Some (fst e)) /\
  resetRecording w' = Returned tt w'.
Proof.
  intros w'. subst w'.
  destruct w as [s ip ir sm ru cr ar pr rr rc pe nh st re ou nu tr].
  unfold exec, resetRecording, revokeObjectURL, bind, get, modify, ret.
  destruct ru as [u|]; cbn -[filter];
    (split; [reflexivity|split; [reflexivity|split; [|reflexivity]]]);
    intros e; rewrite ?filter_In, ?negb_true_iff, ?Nat.eqb_neq; split.
  - intros [He Hu]. split; [exact He|congruence].
  - intros [He Hu]. split; [exact He|congruence].
  - intros He. split; [exact He|discriminate].
  - intros [He _]. exact He.
Qed.

Lemma resetRecording_revokes_witness :
  let e := (0%nat, {| blob_size := 7; blob_type := "video/webm" |}) in
  let w := set_objectURLs [e]
             (setRecordedUrl (Some 0%nat) (initialWorld None [])) in
  (In e (objectURLs w) /\ recordedUrl w = Some 0%nat) /\
  ~ In e (objectURLs (exec resetRecording w)).
Proof.
  intros e w. split; [split; [left; reflexivity|reflexivity]|].
  intros Hin.
  destruct (resetRecording_revokes w) as [_ [_ [Hiff _]]].
  destruct (proj1 (Hiff e) Hin) as [_ Hne].
  apply Hne. reflexivity.
Defined.

(** What the effect's cleanup leaves behind: [playingRef] and [isPlaying]
    false, the pending frame cancelled, every track of the current
    recorder's stream stopped; steps that still run afterwards return at
    their liveness check. *)
Theorem effect_cleanup_stops_everything (w : World) (steps : list (Tick * Q)) :
  let w' := exec effectCleanup w in
  playingRef w' = false /\ isPlaying w' = false /\
  (singleChain w -> pending w' = []) /\
  (forall r x tracks,
     recorderRef w = Some r ->
     nth_error (recorders w) r = Some x ->
     nth_error (streams w) (rec_stream x) = Some tracks ->
     nth_error (streams w') (rec_stream x) = Some (map (fun _ => Ended) tracks)) /\
  runTicks steps w' = Returned tt w'.
Proof.
  intros w'.
  assert (Hflag : playingRef w' = false /\ isPlaying w' = false).
  { subst w'.
    destruct w as [s ip ir sm ru cr ar pr rr rc pe nh st re ou nu tr].
    unfold_ops. split_cases; split; reflexivity. }
  destruct Hflag as [Hflag Hplay].
  repeat split; auto.
  - intros [Hn Hp]. subst w'.
    destruct w as [s ip ir sm ru cr ar pr rr rc pe nh st re ou nu tr].
    simpl in Hn, Hp.
    destruct Hp as [->|[h [c [-> [-> [Hh _]]]]]].
    + unfold_ops. split_cases; reflexivity.
    + destruct h as [|h]; [lia|].
      unfold_ops. split_cases; simpl; now rewrite Nat.eqb_refl.
  - intros r x tracks Href Hr Hs. subst w'.
    destruct w as [s ip ir sm ru cr ar pr rr rc pe nh st re ou nu tr].
    simpl in Href, Hr, Hs. subst rr.
    unfold exec, effectCleanup, stopPlayback, cancelCurrentFrame,
      cancelAnimationFrame, truthyHandle, stopTracks, bind, get, modify, ret.
    destruct ar as [[|h]|]; cbn -[stopAt nth_error filter]; rewrite Hr;
      cbn -[stopAt nth_error filter]; now apply stopAt_nth.
  - now apply runTicks_cancelled.
Qed.

Lemma effect_cleanup_stops_everything_witness :
  let w := exec (renderVideo (Some vp8Host) 0)
             (initialWorld (Some readyCanvas) (INITIAL_SLIDES None None)) in
  let w' := exec effectCleanup w in
  (singleChain w /\ streams w = [[Live]]) /\
  pending w' = [] /\ streams w' = [[Ended]].
Proof.
  intros w w'.
  assert (Hs : singleChain w).
  { unfold singleChain. split; [vm_compute; lia|]. right.
    exists 1%nat. eexists. repeat split; try reflexivity; vm_compute; lia. }
  split; [split; [exact Hs|reflexivity]|].
  destruct (effect_cleanup_stops_everything w []) as [_ [_ [Hp _]]].
  split; [exact (Hp Hs)|reflexivity].
Defined.

(** ** More on slide editing *)

Lemma unique_ids_keep_slides_witness :
  let start := INITIAL_SLIDES (Some "u0"%string) (Some "u1"%string) in
  let prev := removeSlide "u0" (addSlide (Some "u2"%string) start) in
  (start <> [] /\ NoDup (map id start) /\ ReachableUnique start prev) /\
  prev <> [].
Proof.
  intros start prev.
  assert (Hne : start <> []) by discriminate.
  assert (Hnd : NoDup (map id start)).
  { simpl. constructor; [intros [H|[]]; discriminate|].
    constructor; [intros []|constructor]. }
  assert (Hr : ReachableUnique start prev).
  { apply reach_remove, reach_add; [apply reach_start|].
    simpl. intros [H|[H|[]]]; discriminate. }
  split; [repeat split; auto|].
  exact (proj1 (unique_ids_keep_slides start prev Hne Hnd Hr)).
Defined.

Lemma findIndex_first {A : Type} (p : A -> bool) (pre post : list A) (x : A) :
  (forall y, In y pre -> p y = false) -> p x = true ->
  findIndex p (pre ++ x :: post) = Some (length pre).
Proof.
  intros Hpre Hx. induction pre as [|y pre IH]; simpl.
  - now rewrite Hx.
  - rewrite (Hpre y) by now left. rewrite IH; [reflexivity|].
    intros z Hz. apply Hpre. now right.
Qed.

Lemma findIndex_none {A : Type} (p : A -> bool) (l : list A) :
  (forall y, In y l -> p y = false) -> findIndex p l = None.
Proof.
  intros H. induction l as [|y l IH]; simpl; [reflexivity|].
  rewrite (H y) by now left. rewrite IH; [reflexivity|].
  intros z Hz. apply H. now right.
Qed.

Lemma firstn_length_app {A : Type} (pre l : list A) :
  firstn (length pre) (pre ++ l) = pre.
Proof. induction pre as [|y pre IH]; simpl; [now destruct l|now rewrite IH]. Qed.

Lemma skipn_length_app {A : Type} (pre l : list A) :
  skipn (length pre) (pre ++ l) = l.
Proof. induction pre as [|y pre IH]; simpl; auto. Qed.

Lemma nth_error_length_app {A : Type} (pre post : list A) (x : A) :
  nth_error (pre ++ x :: post) (length pre) = Some x.
Proof. induction pre as [|y pre IH]; simpl; auto. Qed.

Lemma moveSlide_swap (i : string) (before after : list Slide)
  (a b : Slide) :
  (forall slide, In slide before -> id slide <> i) ->
  (id a = i ->
   moveSlide i 1 (before ++ a :: b :: after) = before ++ b :: a :: after) /\
  (id a <> i -> id b = i ->
   moveSlide i (-1) (before ++ a :: b :: after) = before ++ b :: a :: after).
Proof.
  intros Hbefore.
  assert (Hpre : forall y, In y before -> String.eqb (id y) i = false).
  { intros y Hy. apply String.eqb_neq. now apply Hbefore. }
  split.
  - intros Ha. unfold moveSlide.
    rewrite (findIndex_first _ before (b :: after) a Hpre)
      by now apply String.eqb_eq.
    rewrite nth_error_length_app, length_app. simpl length.
    replace (Z.ltb (Z.of_nat (length before) + 1) 0) with false
      by (symmetry; apply Z.ltb_ge; lia).
    replace (Z.geb (Z.of_nat (length before) + 1)
               (Z.of_nat (length before + S (S (length after)))))
      with false by (symmetry; rewrite Z.geb_leb; apply Z.leb_gt; lia).
    simpl orb. cbv iota.
    replace (Z.to_nat (Z.of_nat (length before) + 1))
      with (length (before ++ [b])) by (rewrite length_app; simpl; lia).
    rewrite firstn_length_app.
    change (a :: b :: after) with ([a] ++ b :: after).
    replace (S (length before)) with (length (before ++ [a]))
      by (rewrite length_app; simpl; lia).
    rewrite app_assoc, skipn_length_app.
    change (before ++ b :: after) with (before ++ [b] ++ after).
    rewrite app_assoc, firstn_length_app, skipn_length_app.
    now rewrite <- app_assoc.
  - intros Ha Hb. unfold moveSlide.
    change (before ++ a :: b :: after) with (before ++ [a] ++ b :: after).
    rewrite app_assoc.
    assert (Hpre' : forall y, In y (before ++ [a]) -> String.eqb (id y) i = false).
    { intros y Hy. apply in_app_or in Hy. destruct Hy as [Hy|[<-|[]]]; auto.
      now apply String.eqb_neq. }
    rewrite (findIndex_first _ (before ++ [a]) after b Hpre')
      by now apply String.eqb_eq.
    rewrite nth_error_length_app, firstn_length_app.
    rewrite !length_app. simpl length.
    replace (Z.ltb (Z.of_nat (length before + 1) + -1) 0) with false
      by (symmetry; apply Z.ltb_ge; lia).
    replace (Z.geb (Z.of_nat (length before + 1) + -1)
               (Z.of_nat (length before + 1 + S (length after))))
      with false by (symmetry; rewrite Z.geb_leb; apply Z.leb_gt; lia).
    simpl orb. cbv iota.
    replace (S (length before + 1)) with (length ((before ++ [a]) ++ [b]))
      by (rewrite !length_app; simpl; lia).
    change (b :: after) with ([b] ++ after).
    rewrite (app_assoc (before ++ [a]) [b] after), skipn_length_app.
    replace (Z.to_nat (Z.of_nat (length before + 1) + -1))
      with (length before) by lia.
    rewrite <- (app_assoc before [a] after).
    rewrite firstn_length_app, skipn_length_app.
    reflexivity.
Qed.

(** [moveSlide] swaps the first slide that has the id with its neighbour:
    down with the slide after it, up with the slide before it. *)
Theorem moveSlide_swaps_neighbours (i : string) (before after : list Slide)
  (a b : Slide) :
  (forall slide, In slide before -> id slide <> i) ->
  (id a = i ->
   moveSlide i 1 (before ++ a :: b :: after) = before ++ b :: a :: after) /\
  (id a <> i -> id b = i ->
   moveSlide i (-1) (before ++ a :: b :: after) = before ++ b :: a :: after).
Proof. apply moveSlide_swap. Qed.

Lemma moveSlide_swaps_neighbours_witness :
  let a := createSlide None 0 in
  let b := createSlide None 1 in
  id a = "slide-0"%string /\
  moveSlide "slide-0" 1 ([] ++ a :: b :: []) = [] ++ b :: a :: [].
Proof.
  intros a b. split; [reflexivity|].
  apply (proj1 (moveSlide_swaps_neighbours "slide-0" [] [] a b
                  (fun slide (H : In slide []) => match H with end))).
  reflexivity.
Defined.

(** [moveSlide] changes nothing when no slide has the id, when the slide is
    first and is moved up, and when it is last and is moved down. *)
Theorem moveSlide_at_the_ends (i : string) (before after : list Slide)
  (a : Slide) :
  (forall slide, In slide before -> id slide <> i) ->
  moveSlide i 1 before = before /\ moveSlide i (-1) before = before /\
  (id a = i -> moveSlide i (-1) (a :: after) = a :: after) /\
  (id a = i -> moveSlide i 1 (before ++ [a]) = before ++ [a]).
Proof.
  intros Hbefore.
  assert (Hpre : forall y, In y before -> String.eqb (id y) i = false).
  { intros y Hy. apply String.eqb_neq. now apply Hbefore. }
  repeat split.
  - unfold moveSlide. now rewrite (findIndex_none _ before Hpre).
  - unfold moveSlide. now rewrite (findIndex_none _ before Hpre).
  - intros Ha. unfold moveSlide. simpl findIndex.
    apply String.eqb_eq in Ha. now rewrite Ha.
  - intros Ha. unfold moveSlide.
    rewrite (findIndex_first _ before [] a Hpre) by now apply String.eqb_eq.
    rewrite length_app. simpl length.
    replace (Z.geb (Z.of_nat (length before) + 1)
               (Z.of_nat (length before + 1)))
      with true by (symmetry; rewrite Z.geb_leb; apply Z.leb_le; lia).
    now rewrite orb_true_r.
Qed.

Lemma moveSlide_at_the_ends_witness :
  let a := createSlide None 0 in
  let b := createSlide None 1 in
  id b = "slide-1"%string /\
  moveSlide "slide-1" 1 ([a] ++ [b]) = [a] ++ [b].
Proof.
  intros a b. split; [reflexivity|].
  assert (Hbefore : forall slide, In slide [a] -> id slide <> "slide-1"%string).
  { intros slide [<-|[]]. discriminate. }
  apply (proj2 (proj2 (proj2 (moveSlide_at_the_ends "slide-1" [a] [] b Hbefore)))).
  reflexivity.
Defined.

(** Moving a slide up and then down again gives back the list. *)
Theorem moveSlide_up_then_down (i : string) (before after : list Slide)
  (a b : Slide) :
  (forall slide, In slide before -> id slide <> i) ->
  id a <> i -> id b = i ->
  moveSlide i 1 (moveSlide i (-1) (before ++ a :: b :: after))
  = before ++ a :: b :: after.
Proof.
  intros Hbefore Ha Hb.
  rewrite (proj2 (moveSlide_swap i before after a b Hbefore) Ha Hb).
  now rewrite (proj1 (moveSlide_swap i before after b a Hbefore) Hb).
Qed.

Lemma moveSlide_up_then_down_witness :
  let slides := INITIAL_SLIDES None None in
  moveSlide "slide-1" 1 (moveSlide "slide-1" (-1) slides) = slides.
Proof.
  intros slides.
  apply (moveSlide_up_then_down "slide-1" [] [] (createSlide None 0)
           (createSlide None 1)).
  - intros slide [].
  - discriminate.
  - reflexivity.
Defined.



Lemma applyPatch_twice (slide : Slide) (patch : SlidePatch) :
  applyPatch (applyPatch slide patch) patch = applyPatch slide patch.
Proof.
  unfold applyPatch. simpl.
  destruct (p_id patch), (p_title patch), (p_body patch),
    (p_background patch), (p_duration patch); reflexivity.
Qed.

(** A patch that leaves the id alone keeps the number, the order and the ids
    of the slides, and applying it a second time changes nothing more. *)
Theorem updateSlide_settles (i : string) (patch : SlidePatch)
  (prev : list Slide) :
  p_id patch = None ->
  let updated := updateSlide i patch prev in
  map id updated = map id prev /\
  length updated = length prev /\
  updateSlide i patch updated = updated.
Proof.
  intros Hp updated. subst updated. split; [|split].
  - now apply updateSlide_ids.
  - unfold updateSlide. apply length_map.
  - unfold updateSlide. rewrite map_map. apply map_ext. intros slide.
    destruct (String.eqb (id slide) i) eqn:Hi.
    + assert (Hid : id (applyPatch slide patch) = id slide)
        by (simpl; now rewrite Hp).
      rewrite Hid, Hi. apply applyPatch_twice.
    + now rewrite Hi.
Qed.

Lemma updateSlide_settles_witness :
  let patch := mkPatch None (Some "Intro"%string) None None None in
  let updated := updateSlide "slide-0" patch (INITIAL_SLIDES None None) in
  p_id patch = None /\
  map title updated = ["Intro"; "Slide 2"]%string /\
  updateSlide "slide-0" patch updated = updated.
Proof.
  intros patch updated. split; [reflexivity|]. split; [reflexivity|].
  exact (proj2 (proj2 (updateSlide_settles "slide-0" patch
                         (INITIAL_SLIDES None None) eq_refl))).
Defined.

(** Editing a title, a body or a background never changes the timeline. *)
Theorem text_edits_keep_the_timeline (i : string) (patch : SlidePatch)
  (prev : list Slide) :
  p_id patch = None ->
  p_duration patch = None ->
  timeline (updateSlide i patch prev) = timeline prev.
Proof.
  intros Hid Hd.
  assert (Hseg : map toSegment (updateSlide i patch prev) = map toSegment prev).
  { unfold updateSlide. rewrite map_map. apply map_ext. intros slide.
    destruct (String.eqb (id slide) i); [|reflexivity].
    unfold toSegment. simpl. now rewrite Hid, Hd. }
  unfold timeline. now rewrite Hseg.
Qed.

Lemma text_edits_keep_the_timeline_witness :
  let patch := mkPatch None None (Some "Once upon a time"%string) None None in
  (p_id patch = None /\ p_duration patch = None) /\
  timeline (updateSlide "slide-1" patch (INITIAL_SLIDES None None))
  = timeline (INITIAL_SLIDES None None).
Proof.
  intros patch. split; [split; reflexivity|].
  exact (text_edits_keep_the_timeline "slide-1" patch
           (INITIAL_SLIDES None None) eq_refl eq_refl).
Defined.



Lemma filter_all {A : Type} (f : A -> bool) (l : list A) :
  (forall x, In x l -> f x = true) -> filter f l = l.
Proof.
  intros H. induction l as [|x l IH]; simpl; [reflexivity|].
  rewrite (H x) by now left. rewrite IH; [reflexivity|].
  intros y Hy. apply H. now right.
Qed.

(** With unique ids [removeSlide], on a list of two slides or more, takes
    out exactly the slide that has the id and keeps the others in order;
    an id no slide has changes nothing. *)
Theorem removeSlide_takes_one (before after : list Slide) (a : Slide) :
  NoDup (map id (before ++ a :: after)) ->
  (2 <= length (before ++ a :: after))%nat ->
  removeSlide (id a) (before ++ a :: after) = before ++ after /\
  (forall i, ~ In i (map id (before ++ a :: after)) ->
             removeSlide i (before ++ a :: after) = before ++ a :: after).
Proof.
  intros Hnd Hlen. unfold removeSlide.
  replace (Nat.leb (length (before ++ a :: after)) 1) with false
    by (symmetry; apply Nat.leb_gt; lia).
  split.
  - rewrite filter_app. simpl. rewrite String.eqb_refl. simpl.
    rewrite map_app in Hnd. simpl in Hnd.
    apply NoDup_remove_2 in Hnd.
    rewrite !filter_all; auto.
    + intros x Hx. apply negb_true_iff, String.eqb_neq. intros Heq.
      apply Hnd. apply in_or_app. right. rewrite <- Heq. now apply in_map.
    + intros x Hx. apply negb_true_iff, String.eqb_neq. intros Heq.
      apply Hnd. apply in_or_app. left. rewrite <- Heq. now apply in_map.
  - intros i Hi. apply filter_all. intros x Hx.
    apply negb_true_iff, String.eqb_neq. intros Heq.
    apply Hi. rewrite <- Heq. now apply in_map.
Qed.

Lemma removeSlide_takes_one_witness :
  let a := createSlide None 0 in
  let b := createSlide None 1 in
  (NoDup (map id ([] ++ a :: [b])) /\ (2 <= length ([] ++ a :: [b]))%nat) /\
  removeSlide (id a) ([] ++ a :: [b]) = [] ++ [b].
Proof.
  intros a b.
  assert (Hnd : NoDup (map id ([] ++ a :: [b]))).
  { simpl. constructor; [intros [H|[]]; discriminate|].
    constructor; [intros []|constructor]. }
  assert (Hlen : (2 <= length ([] ++ a :: [b]))%nat) by (simpl; lia).
  split; [split; assumption|].
  exact (proj1 (removeSlide_takes_one [] [b] a Hnd Hlen)).
Defined.

(** ** Whole runs of the loop *)

Lemma drawFrame_paints_one (slides : list Slide) (elapsedMs : Q) (w : World)
  (canvas : Canvas) :
  canvasRef w = Some canvas -> context2d canvas = true -> slides <> [] ->
  exists index progress,
    drawFrame slides elapsedMs w
    = Returned tt
        (set_trace
           (trace w ++ [DrawSlide (nth_error slides index) index progress]) w).
Proof.
  intros Hc Hctx Hne.
  destruct (drawFrame_outcome slides elapsedMs w)
    as [[_ [H|[[cv [H1 H2]]|H]]]|[cv [i [p [_ [_ [_ [_ H]]]]]]]];
    try congruence.
  now exists i, p.
Qed.

Lemma firePending_single (now : Q) (w : World) (h : nat) (c : Tick) :
  pending w = [(h, c)] ->
  firePending now w = runTick c now (set_pending [] w).
Proof.
  intros Hp. unfold firePending, fireFrame, cancelAnimationFrame, bind, get,
    modify.
  cbv beta. rewrite !Hp. cbn [find fst filter]. rewrite Nat.eqb_refl.
  rewrite Hp. cbn [filter fst]. rewrite Nat.eqb_refl. reflexivity.
Qed.

(** A step before the end of the timeline, fired from the queue: one frame
    is painted and the same closure is pending again. *)
Lemma fired_step_continues (c : Tick) (now : Q) (w : World) (h : nat)
  (canvas : Canvas) :
  playingRef w = true ->
  canvasRef w = Some canvas -> context2d canvas = true ->
  t_slides c <> [] ->
  pending w = [(h, c)] ->
  (now - t_start c < inject_Z (totalDurationMs (timeline (t_slides c))))%Q ->
  exists event,
    firePending now w
    = Returned tt
        (set_animationRef (Some (nextHandle w))
           (set_nextHandle (S (nextHandle w))
              (set_pending [(nextHandle w, c)]
                 (set_trace (trace w ++ [event]) w)))).
Proof.
  intros Hlive Hc Hctx Hne Hp Hunder.
  apply Qle_bool_false_lt in Hunder.
  rewrite (firePending_single now w h c Hp).
  destruct (drawFrame_paints_one (t_slides c) (now - t_start c)
              (set_pending [] w) canvas Hc Hctx Hne) as [i [p Hd]].
  eexists.
  unfold runTick, tick, captureTick, requestAnimationFrame, bind, get, modify.
  destruct (t_kind c); cbv beta; cbn [playingRef set_pending];
    rewrite Hlive; cbn [negb]; cbv beta iota zeta; rewrite Hunder, Hd;
    reflexivity.
Qed.

(** A capture runs to its end: with the capture's step pending and its
    recorder recording, frames fired at times before the end of the timeline
    and then one at or past it paint one frame each, after which nothing is
    pending, [playingRef] and [isPlaying] are false and the recorder has
    been stopped. *)
Theorem capture_runs_to_the_end (c : Tick) (r : nat) (x : MediaRecorder)
  (canvas : Canvas) (times : list Q) (finish : Q) :
  forall (w : World) (h : nat),
    playingRef w = true ->
    canvasRef w = Some canvas -> context2d canvas = true ->
    t_slides c <> [] ->
    t_kind c = CaptureTick r ->
    pending w = [(h, c)] ->
    nth_error (recorders w) r = Some x -> rec_state x = Recording ->
    let total := inject_Z (totalDurationMs (timeline (t_slides c))) in
    Forall (fun now => now - t_start c < total)%Q times ->
    (total <= finish - t_start c)%Q ->
    let w' := exec (fireAll (times ++ [finish])) w in
    fireAll (times ++ [finish]) w = Returned tt w' /\
    pending w' = [] /\
    playingRef w' = false /\ isPlaying w' = false /\
    option_map rec_state (nth_error (recorders w') r) = Some Inactive /\
    length (trace w') = (length (trace w) + length times + 1)%nat.
Proof.
  induction times as [|now times IH];
    intros w h Hlive Hc Hctx Hne Hkind Hp Hr Hstate total Hall Hfinish w'.
  - subst w'. simpl app. unfold exec, fireAll, bind, ret.
    rewrite (firePending_single finish w h c Hp).
    apply Qle_bool_iff in Hfinish.
    destruct (drawFrame_paints_one (t_slides c)
                (inject_Z (totalDurationMs (timeline (t_slides c)) - 1))
                (set_pending [] w) canvas Hc Hctx Hne) as [i [p Hd]].
    unfold runTick, captureTick, recorderStop, bind, get, modify.
    rewrite Hkind. cbv beta. cbn [playingRef set_pending].
    rewrite Hlive. cbn [negb].
    cbv beta iota zeta. fold total. rewrite Hfinish, Hd.
    simpl. rewrite Hr, Hstate. simpl.
    rewrite (setRecState_nth _ _ _ _ Hr). repeat split.
    rewrite length_app. simpl. lia.
  - inversion Hall as [|? ? Hnow Hrest]; subst.
    destruct (fired_step_continues c now w h canvas Hlive Hc Hctx Hne Hp Hnow)
      as [event Hstep].
    set (w1 := set_animationRef _ _) in Hstep.
    assert (Hrun : fireAll ((now :: times) ++ [finish]) w
                   = fireAll (times ++ [finish]) w1).
    { simpl. unfold bind. now rewrite Hstep. }
    destruct (IH w1 (nextHandle w)) as [H1 [H2 [H3 [H4 [H5 H6]]]]]; auto.
    subst w'. unfold exec in *. rewrite Hrun.
    repeat split; auto.
    rewrite H6. subst w1. simpl. rewrite length_app. simpl. lia.
Qed.

Lemma capture_runs_to_the_end_witness :
  let w := exec (renderVideo (Some vp8Host) 0)
             (initialWorld (Some readyCanvas) (INITIAL_SLIDES None None)) in
  let c := {| t_slides := INITIAL_SLIDES None None; t_kind := CaptureTick 0;
              t_start := 0 |} in
  let w' := exec (fireAll ([1000; 5000] ++ [8000])%Q) w in
  (pending w = [(1%nat, c)] /\
   Forall (fun now => now - t_start c
                      < inject_Z (totalDurationMs (timeline (t_slides c))))%Q
     [1000; 5000]%Q /\
   (inject_Z (totalDurationMs (timeline (t_slides c))) <= 8000 - t_start c)%Q) /\
  pending w' = [] /\ playingRef w' = false.
Proof.
  intros w c w'.
  assert (Hall : Forall (fun now => now - t_start c
                           < inject_Z (totalDurationMs (timeline (t_slides c))))%Q
                   [1000; 5000]%Q)
    by (repeat constructor).
  assert (Hfin : (inject_Z (totalDurationMs (timeline (t_slides c)))
                  <= 8000 - t_start c)%Q) by (vm_compute; discriminate).
  split; [split; [reflexivity|split; assumption]|].
  destruct (capture_runs_to_the_end c 0%nat _ readyCanvas [1000; 5000]%Q 8000
              w 1%nat eq_refl eq_refl eq_refl
              ltac:(discriminate) eq_refl eq_refl eq_refl eq_refl Hall Hfin)
    as [_ [Hp [Hl _]]].
  split; [exact Hp|exact Hl].
Defined.

(** A step of the looping preview fired from the queue, before or past the
    end of the timeline: one frame is painted and one step is pending
    again, for the same slides and still looping. *)
Lemma fired_step_loops (c : Tick) (onComplete : option nat) (now : Q)
  (w : World) (h : nat) (canvas : Canvas) :
  playingRef w = true ->
  canvasRef w = Some canvas -> context2d canvas = true ->
  t_slides c <> [] ->
  t_kind c = PlaybackTick true onComplete ->
  pending w = [(h, c)] ->
  exists index progress c',
    t_slides c' = t_slides c /\ t_kind c' = t_kind c /\
    firePending now w
    = Returned tt
        (set_animationRef (Some (nextHandle w))
           (set_nextHandle (S (nextHandle w))
              (set_pending [(nextHandle w, c')]
                 (set_trace
                    (trace w ++
                       [DrawSlide (nth_error (t_slides c) index) index progress])
                    w)))).
Proof.
  intros Hlive Hc Hctx Hne Hkind Hp.
  rewrite (firePending_single now w h c Hp).
  unfold runTick, tick, requestAnimationFrame, bind, get, modify.
  rewrite Hkind. cbv beta. cbn [playingRef set_pending].
  rewrite Hlive. cbn [negb]. cbv beta iota zeta.
  destruct (Qle_bool (inject_Z (totalDurationMs (timeline (t_slides c))))
              (now - t_start c)).
  - destruct (drawFrame_paints_one (t_slides c)
                (inject_Z (totalDurationMs (timeline (t_slides c)) - 1))
                (set_pending [] w) canvas Hc Hctx Hne) as [i [p Hd]].
    rewrite Hd.
    exists i, p, {| t_slides := t_slides c;
                    t_kind := PlaybackTick true onComplete; t_start := now |}.
    repeat split; auto.
  - destruct (drawFrame_paints_one (t_slides c) (now - t_start c)
                (set_pending [] w) canvas Hc Hctx Hne) as [i [p Hd]].
    rewrite Hd. exists i, p, c. repeat split; auto.
Qed.

(** The looping preview never stops by itself: however many frames the
    browser fires, and whenever, each paints one frame, [playingRef] stays
    true, exactly one step is pending, and [onComplete] is never called. *)
Theorem looping_preview_keeps_going (onComplete : option nat) (canvas : Canvas)
  (times : list Q) :
  forall (c : Tick) (w : World) (h : nat),
    playingRef w = true ->
    canvasRef w = Some canvas -> context2d canvas = true ->
    t_slides c <> [] ->
    t_kind c = PlaybackTick true onComplete ->
    pending w = [(h, c)] ->
    let w' := exec (fireAll times) w in
    fireAll times w = Returned tt w' /\
    playingRef w' = true /\
    (exists h' c', pending w' = [(h', c')] /\ t_slides c' = t_slides c
                   /\ t_kind c' = t_kind c) /\
    (exists frames,
       trace w' = trace w ++ frames /\ length frames = length times /\
       Forall (fun e => exists slide index progress,
                          e = DrawSlide slide index progress) frames).
Proof.
  induction times as [|now times IH];
    intros c w h Hlive Hc Hctx Hne Hkind Hp w'.
  - subst w'. unfold exec. simpl. repeat split; auto.
    + exists h, c. auto.
    + exists []. rewrite app_nil_r. repeat split; auto.
  - destruct (fired_step_loops c onComplete now w h canvas
                Hlive Hc Hctx Hne Hkind Hp)
      as [i [p [c' [Hs [Hk Hstep]]]]].
    set (w1 := set_animationRef _ _) in Hstep.
    assert (Hrun : fireAll (now :: times) w = fireAll times w1).
    { simpl. unfold bind. now rewrite Hstep. }
    destruct (IH c' w1 (nextHandle w))
      as [H1 [H2 [[h2 [c2 [H3 [H4 H5]]]] [frames [H6 [H7 H8]]]]]]; auto;
      try congruence.
    subst w'. unfold exec in *. rewrite Hrun.
    repeat split; auto.
    + exists h2, c2. repeat split; auto; congruence.
    + exists (DrawSlide (nth_error (t_slides c) i) i p :: frames).
      repeat split.
      * rewrite H6. subst w1. simpl. now rewrite <- app_assoc.
      * simpl. now rewrite H7.
      * constructor; auto. now exists (nth_error (t_slides c) i), i, p.
Qed.

Lemma looping_preview_keeps_going_witness :
  let w := exec (playPreview 0)
             (initialWorld (Some readyCanvas) (INITIAL_SLIDES None None)) in
  let c := {| t_slides := INITIAL_SLIDES None None;
              t_kind := PlaybackTick true None; t_start := 0 |} in
  let w' := exec (fireAll [3000; 9000; 12000]%Q) w in
  pending w = [(1%nat, c)] /\
  playingRef w' = true /\ length (pending w') = 1%nat.
Proof.
  intros w c w'. split; [reflexivity|].
  destruct (looping_preview_keeps_going None readyCanvas [3000; 9000; 12000]%Q
              c w 1%nat eq_refl eq_refl eq_refl ltac:(discriminate)
              eq_refl eq_refl)
    as [_ [Hl [[h' [c' [Hp _]]] _]]].
  split; [exact Hl|]. fold w' in Hp. now rewrite Hp.
Defined.
